(** * The Call of plugin-phone: session reconciliation and status derivation

    A shallow embedding of [packages/plugin-phone/src/call.js]: the derived
    properties of a call, the reconciliation of session snapshots
    ([_setLocus]), the lifecycle operations ([answer], [hangup], [reject],
    [_join]), the post-update poll ([_fetchExpectedLocus]) and
    [toggleFacingMode].

    The program is single threaded and promise driven.  A promise is modelled
    by the way it settles; the collaborators a call talks to (the session
    service, the media adapter) are a script of replies, a [World], consumed
    in the order the requests are issued.  Every call to a collaborator is
    recorded in a trace of [Effect]s, so that "is issued", "is never
    consulted" and "before" are statements about that trace.

    The listeners that [initialize] registers on change events (the
    lifecycle triggers, the object urls, the renegotiation) are not part of
    this embedding: the operations are followed as their own statements
    run. *)

From Stdlib Require Import String Ascii List Bool Arith Lia.
Import ListNotations.
Local Open Scope string_scope.
Local Open Scope list_scope.

(** ** The session document (locus) as the code reads it *)

Record MediaConnection := {
  mediaId : option string;
  remoteSdp : string
}.

Record Device := {
  d_url : string;
  d_correlationId : option string;
  mediaConnections : list MediaConnection
}.

Record MediaStatus := {
  audioStatus : string;
  videoStatus : string
}.

Record Participant := {
  p_url : string;
  state : string;
  devices : list Device;
  p_status : MediaStatus
}.

Record Locus := {
  url : string;
  self : option Participant;
  participants : list Participant;
  l_correlationId : option string
}.

(** A media constraint is [false]/[undefined], [true], or an object whose
    [facingMode.exact] may be present. *)
Inductive Constraint :=
| CFalsy
| CTrue
| CObject (facingModeExact : option string).

Definition truthy (c : Constraint) : bool :=
  match c with CFalsy => false | _ => true end.

(** JavaScript truthiness of an optional string: [undefined] and the empty
    string are falsy. *)
Definition truthy_str (o : option string) : bool :=
  match o with
  | None => false
  | Some s => negb (s =? "")
  end.

Inductive Direction := dir_in | dir_out.

Definition Direction_eqb (a b : Direction) : bool :=
  match a, b with
  | dir_in, dir_in | dir_out, dir_out => true
  | _, _ => false
  end.

Inductive Status := initiated | ringing | connected | disconnected.

(** The verdict of [spark.locus.compare]: call.js names [USE_INCOMING] and
    [FETCH]; every other verdict takes the [default] branch. *)
Inductive Action := USE_INCOMING | FETCH | USE_CURRENT.

(** ** The media adapter's attributes read by the call *)

Record Media := {
  audio : Constraint;
  video : Constraint;
  offerToReceiveAudio : bool;
  offerToReceiveVideo : bool;
  audioConstraint : Constraint;
  videoConstraint : Constraint;
  peer : bool;
  m_localMediaStream : option string
}.

(** ** The call *)

Record Call := {
  correlationId : option string;
  facingMode : option string;
  locus : option Locus;
  localMediaStream : option string;
  locusJoinInFlight : bool;
  locusLeaveInFlight : bool;
  media : Media;
  (* the methods decorated with oneFlight whose promise is outstanding *)
  inFlight : list string
}.

Definition with_correlationId (v : option string) (c : Call) : Call :=
  {| correlationId := v; facingMode := facingMode c; locus := locus c;
     localMediaStream := localMediaStream c;
     locusJoinInFlight := locusJoinInFlight c;
     locusLeaveInFlight := locusLeaveInFlight c; media := media c;
     inFlight := inFlight c |}.

Definition with_facingMode (v : option string) (c : Call) : Call :=
  {| correlationId := correlationId c; facingMode := v; locus := locus c;
     localMediaStream := localMediaStream c;
     locusJoinInFlight := locusJoinInFlight c;
     locusLeaveInFlight := locusLeaveInFlight c; media := media c;
     inFlight := inFlight c |}.

Definition with_locus (v : option Locus) (c : Call) : Call :=
  {| correlationId := correlationId c; facingMode := facingMode c; locus := v;
     localMediaStream := localMediaStream c;
     locusJoinInFlight := locusJoinInFlight c;
     locusLeaveInFlight := locusLeaveInFlight c; media := media c;
     inFlight := inFlight c |}.

Definition with_localMediaStream (v : option string) (c : Call) : Call :=
  {| correlationId := correlationId c; facingMode := facingMode c;
     locus := locus c; localMediaStream := v;
     locusJoinInFlight := locusJoinInFlight c;
     locusLeaveInFlight := locusLeaveInFlight c; media := media c;
     inFlight := inFlight c |}.

Definition with_locusJoinInFlight (v : bool) (c : Call) : Call :=
  {| correlationId := correlationId c; facingMode := facingMode c;
     locus := locus c; localMediaStream := localMediaStream c;
     locusJoinInFlight := v;
     locusLeaveInFlight := locusLeaveInFlight c; media := media c;
     inFlight := inFlight c |}.

Definition with_locusLeaveInFlight (v : bool) (c : Call) : Call :=
  {| correlationId := correlationId c; facingMode := facingMode c;
     locus := locus c; localMediaStream := localMediaStream c;
     locusJoinInFlight := locusJoinInFlight c;
     locusLeaveInFlight := v; media := media c;
     inFlight := inFlight c |}.

Definition with_media (v : Media) (c : Call) : Call :=
  {| correlationId := correlationId c; facingMode := facingMode c;
     locus := locus c; localMediaStream := localMediaStream c;
     locusJoinInFlight := locusJoinInFlight c;
     locusLeaveInFlight := locusLeaveInFlight c; media := v;
     inFlight := inFlight c |}.

Definition with_inFlight (v : list string) (c : Call) : Call :=
  {| correlationId := correlationId c; facingMode := facingMode c;
     locus := locus c; localMediaStream := localMediaStream c;
     locusJoinInFlight := locusJoinInFlight c;
     locusLeaveInFlight := locusLeaveInFlight c; media := media c;
     inFlight := v |}.

(** ** Promises, requests and the trace of collaborator calls *)

(** How a collaborator answers a request. *)
Inductive Reply (A : Type) :=
| Resolves (a : A)
| Rejects (reason : string).
Arguments Resolves {A} a.
Arguments Rejects {A} reason.

(** The first argument of [_join]: an address to dial or a session. *)
Inductive Target :=
| Invitee (address : string)
| Session (l : Locus).

Definition target_correlationId (t : Target) : option string :=
  match t with
  | Invitee _ => None
  | Session l => l_correlationId l
  end.

(** Round trips to the session service ([this.spark.locus.*]).  The session
    argument is [this.locus] as it is at the call, [None] when it is null. *)
Inductive Request :=
| ReqJoin (method : string) (target : Target) (localSdp : string)
          (corr : option string)
| ReqGet (l : option Locus)
| ReqLeave (l : option Locus)
| ReqDecline (l : option Locus).

Inductive Effect :=
| Log (msg : string)
| MediaEnd
| MediaSetStream (stream : string)
| MediaSet (a v : Constraint) (recvAudio recvVideo : bool)
| CreateOffer
| AcceptAnswer (sdp : string)
| Sent (r : Request)
| Compared (current incoming : Locus)
| WhenChangeLocus
| StopListening
| Off
| CreateLocalMediaStream (a v : Constraint)
| OnceAnswerAccepted.

(** The replies the collaborators will give, each list in the order the
    requests are issued.  An exhausted list is a collaborator that never
    answers: the promise stays pending. *)
Record World := {
  session : list (Reply Locus);      (* spark.locus.* *)
  offers : list (Reply string);      (* media.createOffer *)
  answers : list (Reply unit);       (* media.acceptAnswer *)
  streams : list (Reply string);     (* phone.createLocalMediaStream *)
  answeraccepted : bool;             (* media emits answeraccepted *)
  uuid : string                      (* what uuid.v4() returns next *)
}.

Definition with_session (rs : list (Reply Locus)) (w : World) : World :=
  {| session := rs; offers := offers w; answers := answers w;
     streams := streams w; answeraccepted := answeraccepted w;
     uuid := uuid w |}.

Definition with_offers (rs : list (Reply string)) (w : World) : World :=
  {| session := session w; offers := rs; answers := answers w;
     streams := streams w; answeraccepted := answeraccepted w;
     uuid := uuid w |}.

Definition with_answers (rs : list (Reply unit)) (w : World) : World :=
  {| session := session w; offers := offers w; answers := rs;
     streams := streams w; answeraccepted := answeraccepted w;
     uuid := uuid w |}.

Definition with_streams (rs : list (Reply string)) (w : World) : World :=
  {| session := session w; offers := offers w; answers := answers w;
     streams := rs; answeraccepted := answeraccepted w;
     uuid := uuid w |}.

(** How an operation ends: its promise resolves, rejects or never settles,
    the operation throws before it returns a promise, or it returns the
    promise of an execution of [method] that is already outstanding. *)
Inductive Settled (A : Type) :=
| Resolved (a : A)
| Rejected (reason : string)
| Pending
| Thrown (error : string)
| Joined (method : string).
Arguments Resolved {A} a.
Arguments Rejected {A} reason.
Arguments Pending {A}.
Arguments Thrown {A} error.
Arguments Joined {A} method.

Record Run (A : Type) := {
  outcome : Settled A;
  call : Call;
  world : World;
  trace : list Effect
}.
Arguments outcome {A} r.
Arguments call {A} r.
Arguments world {A} r.
Arguments trace {A} r.

(** An operation on a call: from the replies to come and the call's state
    to the way it ends, the state and replies left, and what it did. *)
Definition P (A : Type) : Type := World -> Call -> Run A.

Definition ret {A} (a : A) : P A :=
  fun w c => {| outcome := Resolved a; call := c; world := w; trace := [] |}.

Definition settle {A} (o : Settled A) : P A :=
  fun w c => {| outcome := o; call := c; world := w; trace := [] |}.

(** [m.then(k)], and sequencing of statements: [k] runs only when [m]
    resolved. *)
Definition bind {A B} (m : P A) (k : A -> P B) : P B :=
  fun w c =>
    let r := m w c in
    match outcome r with
    | Resolved a =>
        let r' := k a (world r) (call r) in
        {| outcome := outcome r'; call := call r'; world := world r';
           trace := trace r ++ trace r' |}
    | Rejected e =>
        {| outcome := Rejected e; call := call r; world := world r;
           trace := trace r |}
    | Pending =>
        {| outcome := Pending; call := call r; world := world r;
           trace := trace r |}
    | Thrown e =>
        {| outcome := Thrown e; call := call r; world := world r;
           trace := trace r |}
    | Joined m' =>
        {| outcome := Joined m'; call := call r; world := world r;
           trace := trace r |}
    end.

Declare Scope promise_scope.
Delimit Scope promise_scope with promise.
Notation "x <- m ;; k" := (bind m (fun x => k))
  (at level 100, m at next level, right associativity) : promise_scope.
Notation "m ;; k" := (bind m (fun _ => k))
  (at level 100, right associativity) : promise_scope.
Local Open Scope promise_scope.

Definition emit (e : Effect) : P unit :=
  fun w c => {| outcome := Resolved tt; call := c; world := w; trace := [e] |}.

Definition this : P Call :=
  fun w c => {| outcome := Resolved c; call := c; world := w; trace := [] |}.

Definition assign (f : Call -> Call) : P unit :=
  fun w c => {| outcome := Resolved tt; call := f c; world := w; trace := [] |}.

Definition settled_of {A} (rs : list (Reply A)) : Settled A :=
  match rs with
  | [] => Pending
  | Resolves a :: _ => Resolved a
  | Rejects e :: _ => Rejected e
  end.

(** A round trip to the session service: the request is issued, and the
    promise settles as the next reply says. *)
Definition roundTrip (req : Request) : P Locus :=
  fun w c =>
    {| outcome := settled_of (session w); call := c;
       world := with_session (tl (session w)) w; trace := [Sent req] |}.

Definition createOffer : P string :=
  fun w c =>
    {| outcome := settled_of (offers w); call := c;
       world := with_offers (tl (offers w)) w; trace := [CreateOffer] |}.

Definition acceptAnswer (sdp : string) : P unit :=
  fun w c =>
    {| outcome := settled_of (answers w); call := c;
       world := with_answers (tl (answers w)) w;
       trace := [AcceptAnswer sdp] |}.

(** The calls to a given collaborator that a trace holds. *)
Definition isGet (e : Effect) : bool :=
  match e with Sent (ReqGet _) => true | _ => false end.

Definition isCompared (e : Effect) : bool :=
  match e with Compared _ _ => true | _ => false end.

Definition isJoinSent (e : Effect) : bool :=
  match e with Sent (ReqJoin _ _ _ _) => true | _ => false end.

Definition fetches (t : list Effect) : nat := length (filter isGet t).

Definition uuid_v4 : P string :=
  fun w c => {| outcome := Resolved (uuid w); call := c; world := w;
                trace := [] |}.

(** A promise whose result the caller drops ([this._setLocus(locus);] as a
    statement): the caller goes on at once, with what the operation did
    before its first suspension; no reply is consumed on its behalf. *)
Definition detached {A} (m : P A) : P unit :=
  fun w c =>
    let r := m (with_session [] w) c in
    {| outcome := Resolved tt; call := call r; world := w;
       trace := trace r |}.

(** Modelled from the spec: the [oneFlight] decorator of @ciscospark/common
    is not part of the sources at hand.  The spec: "the first call starts the
    operation and stores its eventual result; subsequent calls while it is
    outstanding subscribe to that same pending result rather than starting a
    new one". *)
Definition oneFlight (name : string) (body : P unit) : P unit :=
  fun w c =>
    if existsb (String.eqb name) (inFlight c) then
      {| outcome := Joined name; call := c; world := w; trace := [] |}
    else
      let r := body w (with_inFlight (name :: inFlight c) c) in
      match outcome r with
      | Pending => r
      | _ =>
          {| outcome := outcome r;
             call := with_inFlight
                       (remove string_dec name (inFlight (call r))) (call r);
             world := world r; trace := trace r |}
      end.

(** Modelled from the spec: the [retry] decorator of @ciscospark/common is
    not part of the sources at hand.  The spec: "retry the fetch a bounded
    small number of times before giving up and propagating failure"; the
    comment on [_fetchExpectedLocus] gives the bound: "or three errors
    occur".  [retry_ n body] runs [body] and, while it rejects, runs it again
    up to [n] more times. *)
Fixpoint retry_ {A} (more : nat) (body : P A) : P A :=
  fun w c =>
    let r := body w c in
    match outcome r, more with
    | Rejected _, S n =>
        let r' := retry_ n body (world r) (call r) in
        {| outcome := outcome r'; call := call r'; world := world r';
           trace := trace r ++ trace r' |}
    | _, _ => r
    end.

Definition maxAttempts : nat := 3.

Definition retry {A} (body : P A) : P A := retry_ (maxAttempts - 1) body.

(** ** ./bool-to-status (the copy kept beside the media tests) *)

(** [None] stands for the final [throw]. *)
Definition boolToStatus (sending receiving : bool) : option string :=
  if sending && receiving then Some "sendrecv"
  else if sending && negb receiving then Some "sendonly"
  else if negb sending && receiving then Some "recvonly"
  else if negb sending && negb receiving then Some "inactive"
  else None.

(** [String.prototype.toLowerCase] on the ASCII letters. *)
Definition lower_ascii (a : ascii) : ascii :=
  let n := nat_of_ascii a in
  if ((65 <=? n)%nat && (n <=? 90)%nat)%bool then ascii_of_nat (n + 32) else a.

Fixpoint toLowerCase (s : string) : string :=
  match s with
  | EmptyString => EmptyString
  | String a s' => String (lower_ascii a) (toLowerCase s')
  end.

(** The [options] of [_join]; [options.correlationId] is only written. *)
Record Options := {
  o_localMediaStream : option string;
  o_constraints : option (Constraint * Constraint);   (* audio, video *)
  o_offerToReceiveAudio : option bool;
  o_offerToReceiveVideo : option bool
}.

Definition isFacingMode (m : option string) : bool :=
  match m with
  | Some s => (s =? "user") || (s =? "environment")
  | None => false
  end.

Definition media_set (a v : Constraint) (ra rv : bool) (m : Media) : Media :=
  {| audio := a; video := v; offerToReceiveAudio := ra;
     offerToReceiveVideo := rv; audioConstraint := audioConstraint m;
     videoConstraint := videoConstraint m; peer := peer m;
     m_localMediaStream := m_localMediaStream m |}.

Definition media_set_stream (s : option string) (m : Media) : Media :=
  {| audio := audio m; video := video m;
     offerToReceiveAudio := offerToReceiveAudio m;
     offerToReceiveVideo := offerToReceiveVideo m;
     audioConstraint := audioConstraint m;
     videoConstraint := videoConstraint m; peer := peer m;
     m_localMediaStream := s |}.

Definition media_set_videoConstraint (v : Constraint) (m : Media) : Media :=
  {| audio := audio m; video := video m;
     offerToReceiveAudio := offerToReceiveAudio m;
     offerToReceiveVideo := offerToReceiveVideo m;
     audioConstraint := audioConstraint m;
     videoConstraint := v; peer := peer m;
     m_localMediaStream := m_localMediaStream m |}.

(** The payload of a session event ([event.data]). *)
Record LocusEvent := {
  eventType : string;
  e_locus : Locus
}.

(** [===] on two optional strings. *)
Definition option_string_eqb (a b : option string) : bool :=
  match a, b with
  | Some x, Some y => x =? y
  | None, None => true
  | _, _ => false
  end.

(** Modelled from the spec: [participantIsJoined] of ./state-parsers is not
    part of the sources at hand; the spec's status rule reads it as "the
    remote participant's state indicates joined". *)
Definition participantIsJoined (p : Participant) : bool :=
  state p =? "JOINED".

Section CallModel.

(** What call.js imports and does not define: the remaining parsers of
    ./state-parsers, the comparator of plugin-locus, the url of this device
    ([spark.device.url]), the phone's default facing mode and [JSON.parse]
    of a remote description (its [sdp] member; [None] when it throws). *)
Variable remoteParticipant : Locus -> option Participant.
Variable direction_of : Locus -> Direction.
Variable joinedOnThisDevice_of : Locus -> bool.
Variable compare : Locus -> Locus -> Action.
Variable deviceUrl : string.
Variable defaultFacingMode : string.
Variable parseSdp : string -> option string.

(** ** Derived properties (the [derived] block of call.js) *)

Definition joinedOnThisDevice (c : Call) : bool :=
  match locus c with
  | Some l => joinedOnThisDevice_of l
  | None => false
  end.

Definition device (c : Call) : option Device :=
  match locus c with
  | Some l =>
      match self l with
      | Some s => find (fun item => d_url item =? deviceUrl) (devices s)
      | None => None
      end
  | None => None
  end.

Definition mediaConnection (c : Call) : option MediaConnection :=
  match device c with
  | Some d => hd_error (mediaConnections d)
  | None => None
  end.

Definition direction (c : Call) : Direction :=
  match locus c with
  | None => dir_out
  | Some l => direction_of l
  end.

Definition local (c : Call) : option Participant :=
  match locus c with
  | Some l => self l
  | None => None
  end.

Definition remote (c : Call) : option Participant :=
  match locus c with
  | Some l => remoteParticipant l
  | None => None
  end.

(** [status.fn]: the value is computed from [joinedOnThisDevice], [local]
    and [remote], in the order of the source's [if]s. *)
Definition status_fn (joined : bool) (loc rem : option Participant) : Status :=
  if joined && match rem with Some r => participantIsJoined r | None => false end
  then connected
  else
    match rem, loc with
    | Some r, Some l =>
        if (state r =? "LEFT") || (state l =? "LEFT") then disconnected
        else if state r =? "DECLINED" then disconnected
        else if state r =? "NOTIFIED" then ringing
        else initiated
    | _, _ => initiated
    end.

Definition status (c : Call) : Status :=
  status_fn (joinedOnThisDevice c) (local c) (remote c).

(** ** Session reconciliation *)

(** [_setLocus(incoming)].  The recursion of the [FETCH] branch follows the
    replies of the session service: each fetch consumes one. *)
Fixpoint _setLocus_on (rs : list (Reply Locus)) (w : World) (c : Call)
  (incoming : Locus) {struct rs} : Run unit :=
  match locus c with
  | None =>
      {| outcome := Resolved tt; call := with_locus (Some incoming) c;
         world := with_session rs w; trace := [] |}
  | Some current =>
      match compare current incoming with
      | USE_INCOMING =>
          let c1 := with_locus (Some incoming) c in
          {| outcome := Resolved tt;
             call := match device c1 with
                     | Some d => with_correlationId (d_correlationId d) c1
                     | None => c1
                     end;
             world := with_session rs w;
             trace := [Compared current incoming] |}
      | FETCH =>
          let t := [Compared current incoming; Sent (ReqGet (Some current))] in
          match rs with
          | [] =>
              {| outcome := Pending; call := c; world := with_session [] w;
                 trace := t |}
          | Rejects e :: rs' =>
              {| outcome := Rejected e; call := c; world := with_session rs' w;
                 trace := t |}
          | Resolves l :: rs' =>
              let r := _setLocus_on rs' w c l in
              {| outcome := outcome r; call := call r; world := world r;
                 trace := t ++ trace r |}
          end
      | USE_CURRENT =>
          {| outcome := Resolved tt; call := c; world := with_session rs w;
             trace := [Compared current incoming] |}
      end
  end.

Definition _setLocus (incoming : Locus) : P unit :=
  fun w c => _setLocus_on (session w) w c incoming.

(** ** Joining *)

(** [_join], lines 809-840: the local media is set up from [options]. *)
Definition _join_media (options : Options) : P unit :=
  match o_localMediaStream options with
  | Some s =>
      emit (MediaSetStream s) ;;
      assign (fun c => with_media (media_set_stream (Some s) (media c)) c)
  | None =>
      let '(a, v) :=
        match o_constraints options with
        | Some cs => cs
        | None => (CTrue, CObject (Some defaultFacingMode))
        end in
      let mode := match v with CObject m => m | _ => None end in
      let recvOnly := negb (truthy a) && negb (truthy v) in
      let ra := match o_offerToReceiveAudio options with
                | Some b => b
                | None => recvOnly || truthy a
                end in
      let rv := match o_offerToReceiveVideo options with
                | Some b => b
                | None => recvOnly || truthy v
                end in
      (if isFacingMode mode then assign (with_facingMode mode) else ret tt) ;;
      emit (MediaSet a v ra rv) ;;
      assign (fun c => with_media (media_set a v ra rv (media c)) c)
  end.

(** [_join], lines 842-848: the two assignments of [this.correlationId]. *)
Definition _join_correlationId (target : Target) : P unit :=
  (if negb (truthy_str (target_correlationId target))
   then (id <- uuid_v4 ;; assign (with_correlationId (Some id)))
   else ret tt) ;;
  c <- this ;;
  if negb (truthy_str (correlationId c))
  then assign (with_correlationId (target_correlationId target))
  else ret tt.

(** [_join], lines 850-860: the offer, the round trip and its continuation.
    The promise of [_setLocus] is dropped there. *)
Definition _join_exchange (locusMethodName : string) (target : Target)
  : P unit :=
  offer <- createOffer ;;
  c <- this ;;
  l <- roundTrip (ReqJoin locusMethodName target offer (correlationId c)) ;;
  detached (_setLocus l) ;;
  assign (with_locusJoinInFlight false) ;;
  c <- this ;;
  match mediaConnection c with
  | None => settle (Rejected "TypeError")
  | Some mc =>
      match parseSdp (remoteSdp mc) with
      | None => settle (Rejected "SyntaxError")
      | Some sdp => acceptAnswer sdp
      end
  end.

Definition _join (locusMethodName : string) (target : Target)
  (options : Options) : P unit :=
  _join_media options ;;
  _join_correlationId target ;;
  _join_exchange locusMethodName target.

(** ** Lifecycle operations *)

Definition answer (options : Options) : P unit :=
  emit (Log "call: answering") ;;
  c <- this ;;
  match locus c with
  | None => ret tt
  | Some l =>
      if Direction_eqb (direction c) dir_out then ret tt
      else if joinedOnThisDevice c && peer (media c)
      then emit (Log "call: already joined on this device") ;; ret tt
      else _join "join" (Session l) options ;; emit (Log "call: answered")
  end.

Definition reject : P unit :=
  oneFlight "reject"
    (c <- this ;;
     if Direction_eqb (direction c) dir_out then ret tt
     else
       emit (Log "call: rejecting") ;;
       l <- roundTrip (ReqDecline (locus c)) ;;
       _setLocus l ;;
       emit StopListening ;;
       emit Off ;;
       emit (Log "call: rejected")).

Definition decline : P unit := reject.

Definition _hangup : P unit :=
  oneFlight "_hangup"
    (assign (with_locusLeaveInFlight true) ;;
     c <- this ;;
     l <- roundTrip (ReqLeave (locus c)) ;;
     _setLocus l ;;
     assign (with_locusLeaveInFlight false) ;;
     emit StopListening ;;
     emit Off ;;
     emit (Log "call: hung up")).

(** [this.when('change:locus')] as [hangup] uses it, on a call without a
    session: the session changes when the reply to the outstanding join
    lands, and the continuation in [_join] then stores it and clears
    [locusJoinInFlight]; a join that fails or is never answered leaves the
    wait pending. *)
Definition whenChangeLocus : P unit :=
  fun w c =>
    match session w with
    | Resolves l :: rs =>
        let r := detached (_setLocus l) (with_session rs w) c in
        {| outcome := Resolved tt;
           call := with_locusJoinInFlight false (call r);
           world := world r; trace := WhenChangeLocus :: trace r |}
    | _ =>
        {| outcome := Pending; call := c; world := w;
           trace := [WhenChangeLocus] |}
    end.

(** [hangup()].  It calls itself after the wait for [change:locus]; that
    self-call is [again]. *)
Definition hangup_body (again : P unit) : P unit :=
  c <- this ;;
  if Direction_eqb (direction c) dir_in && negb (joinedOnThisDevice c)
  then reject
  else
    emit (Log "call: hanging up") ;;
    emit MediaEnd ;;
    match locus c with
    | None =>
        if locusJoinInFlight c then
          emit (Log "call: no locus, waiting for rest call to complete before hanging up") ;;
          whenChangeLocus ;;
          again
        else
          emit StopListening ;;
          emit Off ;;
          emit (Log "call: hang up complete, call never created") ;;
          ret tt
    | Some _ => _hangup
    end.

(** [n] bounds the depth of the self-call. *)
Fixpoint hangup_ (n : nat) : P unit :=
  match n with
  | 0 => settle Pending
  | S n' => hangup_body (hangup_ n')
  end.

(** After the wait the call has a session, so the self-call never waits
    again: depth two is all [hangup] can reach. *)
Definition hangup : P unit := hangup_ 2.

(** ** Polling after a media update *)

(** The [then] callback of [_fetchExpectedLocus]: the snapshot, or the error
    it throws. *)
Definition expected (c : Call) (l : Locus) : Reply Locus :=
  match self l with
  | None => Rejects "TypeError"
  | Some s =>
      match boolToStatus (truthy (audio (media c)))
                         (offerToReceiveAudio (media c)),
            boolToStatus (truthy (video (media c)))
                         (offerToReceiveVideo (media c)) with
      | Some ea, Some ev =>
          if negb (toLowerCase (audioStatus (p_status s)) =? ea) then
            Rejects "locus.self.status.audioStatus indicates the received DTO is out of date"
          else if negb (toLowerCase (videoStatus (p_status s)) =? ev) then
            Rejects "locus.self.status.videoStatus indicates the received DTO is out of date"
          else Resolves l
      | _, _ =>
          Rejects "If you see this error, your JavaScript engine has a major flaw"
      end
  end.

Definition _fetchExpectedLocus_once : P Locus :=
  c <- this ;;
  l <- roundTrip (ReqGet (locus c)) ;;
  c <- this ;;
  match expected c l with
  | Resolves l' => ret l'
  | Rejects e => settle (Rejected e)
  end.

Definition _fetchExpectedLocus : P Locus := retry _fetchExpectedLocus_once.

(** ** Switching cameras *)

Definition toggleFacingMode : P unit :=
  c <- this ;;
  let v := videoConstraint (media c) in
  if negb (truthy v) then
    settle (Thrown "Cannot toggle facignMode on audio-only call")
  else if negb (isFacingMode (facingMode c)) then
    settle (Thrown "Cannot determine current facing mode; specify a new localMediaStream to change cameras")
  else
    let opposite :=
      if match facingMode c with Some m => m =? "user" | None => false end
      then "environment" else "user" in
    (* [constraints.video] is the adapter's own constraint object, so
       lodash's set writes through to it; [true] is first replaced by a
       fresh object *)
    (match v with
     | CObject _ =>
         assign (fun c => with_media
                   (media_set_videoConstraint (CObject (Some opposite))
                      (media c)) c)
     | _ => ret tt
     end) ;;
    emit (CreateLocalMediaStream (audioConstraint (media c))
            (CObject (Some opposite))) ;;
    stream <- (fun w c =>
                 {| outcome := settled_of (streams w); call := c;
                    world := with_streams (tl (streams w)) w;
                    trace := [] |}) ;;
    emit OnceAnswerAccepted ;;
    assign (with_localMediaStream (Some stream)) ;;
    (fun w c =>
       {| outcome := if answeraccepted w then Resolved tt else Pending;
          call := c; world := w; trace := [] |}) ;;
    assign (with_facingMode (Some opposite)).

(** How one attempt of the poll settles, given the replies to come. *)
Definition settled_expected (c : Call) (rs : list (Reply Locus))
  : Settled Locus :=
  match rs with
  | [] => Pending
  | Rejects e :: _ => Rejected e
  | Resolves l :: _ =>
      match expected c l with
      | Resolves l' => Resolved l'
      | Rejects e => Rejected e
      end
  end.

(** ** Reading traces *)

(** A run with one more effect in front. *)
Definition traced (e : Effect) {A} (r : Run A) : Run A :=
  {| outcome := outcome r; call := call r; world := world r;
     trace := e :: trace r |}.

Definition isLeave (e : Effect) : bool :=
  match e with Sent (ReqLeave _) => true | _ => false end.

(** An operation none of whose effects satisfies [p]. *)
Definition quiet (p : Effect -> bool) {A} (m : P A) : Prop :=
  forall w c, existsb p (trace (m w c)) = false.

(** ** Session events *)

(** [_onLocusEvent(event)], a listener: it returns nothing and drops the
    promise of [_setLocus].  [Thrown] is the TypeError of reading
    [self.devices] of an event without [self], or [correlationId] of a
    device record that [find] did not find. *)
Definition _onLocusEvent (event : LocusEvent) : P unit :=
  c <- this ;;
  match self (e_locus event) with
  | None => settle (Thrown "TypeError")
  | Some s =>
      let found := find (fun item => d_url item =? deviceUrl) (devices s) in
      let adopt :=
        emit (Log ("locus event: " ++ eventType event)) ;;
        detached (_setLocus (e_locus event)) in
      if match locus c with
         | Some l => url (e_locus event) =? url l
         | None => false
         end
      then adopt
      else if truthy_str (correlationId c) then
        match found with
        | None => settle (Thrown "TypeError")
        | Some d =>
            if option_string_eqb (correlationId c) (d_correlationId d)
            then adopt else ret tt
        end
      else ret tt
  end.

(** ** More readers of traces *)

Definition isMediaEnd (e : Effect) : bool :=
  match e with MediaEnd => true | _ => false end.

Definition isAcceptAnswer (e : Effect) : bool :=
  match e with AcceptAnswer _ => true | _ => false end.

Definition isTeardown (e : Effect) : bool :=
  match e with StopListening | Off => true | _ => false end.

Definition isSent (e : Effect) : bool :=
  match e with Sent _ => true | _ => false end.


(** A run with a trace in front. *)
Definition after (t : list Effect) {A} (r : Run A) : Run A :=
  {| outcome := outcome r; call := call r; world := world r;
     trace := t ++ trace r |}.

(** ** Sample sessions and calls *)

Definition noStatus : MediaStatus :=
  {| audioStatus := "SENDRECV"; videoStatus := "SENDRECV" |}.

Definition participant (u st : string) (ds : list Device) : Participant :=
  {| p_url := u; state := st; devices := ds; p_status := noStatus |}.

Definition thisDevice (corr : option string) : Device :=
  {| d_url := "device:1"; d_correlationId := corr; mediaConnections := [] |}.

Definition sessionOf (u : string) (s : option Participant) : Locus :=
  {| url := u; self := s; participants := []; l_correlationId := None |}.

Definition noMedia : Media :=
  {| audio := CFalsy; video := CFalsy; offerToReceiveAudio := false;
     offerToReceiveVideo := false; audioConstraint := CFalsy;
     videoConstraint := CFalsy; peer := false; m_localMediaStream := None |}.

(** A call as [Call.make({})] leaves it: nothing set. *)
Definition freshCall : Call :=
  {| correlationId := None; facingMode := None; locus := None;
     localMediaStream := None; locusJoinInFlight := false;
     locusLeaveInFlight := false; media := noMedia; inFlight := [] |}.

Definition silentWorld : World :=
  {| session := []; offers := []; answers := []; streams := [];
     answeraccepted := false; uuid := "uuid-1" |}.

Definition noOptions : Options :=
  {| o_localMediaStream := None; o_constraints := None;
     o_offerToReceiveAudio := None; o_offerToReceiveVideo := None |}.

(** A comparator that accepts every snapshot, one that asks for the full
    session whenever it is handed a delta, and parsers for an outbound call
    joined on this device. *)
Definition alwaysIncoming : Locus -> Locus -> Action :=
  fun _ _ => USE_INCOMING.

Definition refetchDeltas : Locus -> Locus -> Action :=
  fun _ incoming => if url incoming =? "delta" then FETCH else USE_INCOMING.

Definition outbound : Locus -> Direction := fun _ => dir_out.

Definition inbound : Locus -> Direction := fun _ => dir_in.

Definition joinedHere : Locus -> bool := fun _ => true.

Definition noSdp : string -> option string := fun _ => None.

Definition joinedCall (l : Locus) (corr : option string) : Call :=
  {| correlationId := corr; facingMode := None; locus := Some l;
     localMediaStream := None; locusJoinInFlight := false;
     locusLeaveInFlight := false; media := noMedia; inFlight := [] |}.

Definition sendingAll : Media :=
  {| audio := CTrue; video := CTrue; offerToReceiveAudio := true;
     offerToReceiveVideo := true; audioConstraint := CTrue;
     videoConstraint := CTrue; peer := true; m_localMediaStream := None |}.

Definition replying (rs : list (Reply Locus)) : World :=
  with_session rs silentWorld.

(** More samples: a parser for a call not joined on this device, a stand-in
    for [JSON.parse] that finds an [sdp] member, a record of this device
    with a media connection, options of a receive-only call, a video call
    facing the user, a world whose media adapter accepts answers, and an
    event. *)
Definition notJoinedHere : Locus -> bool := fun _ => false.

Definition sdpOf : string -> option string := fun s => Some s.

Definition connectedDevice : Device :=
  {| d_url := "device:1"; d_correlationId := Some "uuid-1";
     mediaConnections := [{| mediaId := Some "media-1"; remoteSdp := "v=0" |}] |}.

Definition receiveOnly : Options :=
  {| o_localMediaStream := None; o_constraints := Some (CFalsy, CFalsy);
     o_offerToReceiveAudio := None; o_offerToReceiveVideo := None |}.

Definition videoCall : Call :=
  with_facingMode (Some "user") (with_media sendingAll freshCall).

Definition acceptingWorld (ss : list (Reply string)) : World :=
  {| session := []; offers := []; answers := []; streams := ss;
     answeraccepted := true; uuid := "uuid-1" |}.

Definition eventFor (l : Locus) : LocusEvent :=
  {| eventType := "locus.participant_joined"; e_locus := l |}.

(** * Properties *)

Lemma with_session_same (w : World) : with_session (session w) w = w.
Proof. destruct w; reflexivity. Qed.

(** *** Running a sequence of statements *)

Lemma bind_this {B} (k : Call -> P B) w c : bind this k w c = k c w c.
Proof. unfold bind, this. cbn. destruct (k c w c); reflexivity. Qed.

Lemma bind_ret {A B} (a : A) (k : A -> P B) w c : bind (ret a) k w c = k a w c.
Proof. unfold bind, ret. cbn. destruct (k a w c); reflexivity. Qed.

Lemma bind_assign {B} f (k : unit -> P B) w c :
  bind (assign f) k w c = k tt w (f c).
Proof. unfold bind, assign. cbn. destruct (k tt w (f c)); reflexivity. Qed.

Lemma bind_emit {B} e (k : unit -> P B) w c :
  bind (emit e) k w c = traced e (k tt w c).
Proof. reflexivity. Qed.

Lemma bind_uuid {B} (k : string -> P B) w c :
  bind uuid_v4 k w c = k (uuid w) w c.
Proof. unfold bind, uuid_v4. cbn. destruct (k (uuid w) w c); reflexivity. Qed.

Lemma bind_thrown {A B} e (k : A -> P B) w c :
  bind (settle (Thrown e)) k w c = settle (Thrown e) w c.
Proof. reflexivity. Qed.

Lemma bind_rejected {A B} (m : P A) (k : A -> P B) w c e :
  outcome (m w c) = Rejected e ->
  bind m k w c =
  {| outcome := Rejected e; call := call (m w c); world := world (m w c);
     trace := trace (m w c) |}.
Proof. intros H. unfold bind. rewrite H. reflexivity. Qed.

Lemma bind_pending {A B} (m : P A) (k : A -> P B) w c :
  outcome (m w c) = Pending ->
  bind m k w c =
  {| outcome := Pending; call := call (m w c); world := world (m w c);
     trace := trace (m w c) |}.
Proof. intros H. unfold bind. rewrite H. reflexivity. Qed.

Lemma bind_resolved {A B} (m : P A) (k : A -> P B) w c a :
  outcome (m w c) = Resolved a ->
  bind m k w c =
  {| outcome := outcome (k a (world (m w c)) (call (m w c)));
     call := call (k a (world (m w c)) (call (m w c)));
     world := world (k a (world (m w c)) (call (m w c)));
     trace := trace (m w c) ++ trace (k a (world (m w c)) (call (m w c))) |}.
Proof. intros H. unfold bind. rewrite H. reflexivity. Qed.

(** ** Status derivation *)

(** C1. The status follows the ordered rule: connected as soon as this
    device has joined and the remote participant's state is JOINED, whatever
    the other states are; otherwise, with both participant records present,
    disconnected when either state is LEFT, else disconnected when the remote
    state is DECLINED, else ringing when it is NOTIFIED; initiated in every
    remaining case. *)
Theorem status_ordered_rule (joined : bool) (loc rem : option Participant) :
  (forall r, joined = true -> rem = Some r -> state r = "JOINED" ->
     status_fn joined loc rem = connected) /\
  (~ (joined = true /\ exists r, rem = Some r /\ state r = "JOINED") ->
     (forall l r, loc = Some l -> rem = Some r ->
        (state r = "LEFT" \/ state l = "LEFT" ->
           status_fn joined loc rem = disconnected) /\
        (state r <> "LEFT" -> state l <> "LEFT" -> state r = "DECLINED" ->
           status_fn joined loc rem = disconnected) /\
        (state r <> "LEFT" -> state l <> "LEFT" -> state r <> "DECLINED" ->
           state r = "NOTIFIED" -> status_fn joined loc rem = ringing) /\
        (state r <> "LEFT" -> state l <> "LEFT" -> state r <> "DECLINED" ->
           state r <> "NOTIFIED" -> status_fn joined loc rem = initiated)) /\
     (loc = None \/ rem = None -> status_fn joined loc rem = initiated)).
Proof using.
  clear remoteParticipant direction_of joinedOnThisDevice_of compare
    deviceUrl defaultFacingMode parseSdp.
  split.
  - intros r -> -> Hj. unfold status_fn, participantIsJoined.
    rewrite Hj. reflexivity.
  - intros Hnot.
    assert (Hfirst : joined && match rem with
                               | Some r => participantIsJoined r
                               | None => false
                               end = false).
    { destruct joined; [|reflexivity]. destruct rem as [r|]; [|reflexivity].
      simpl. unfold participantIsJoined.
      destruct (String.eqb_spec (state r) "JOINED") as [E|E]; [|reflexivity].
      exfalso. apply Hnot. split; [reflexivity|]. exists r. now split. }
    split.
    + intros l r -> ->. unfold status_fn. rewrite Hfirst.
      destruct (String.eqb_spec (state r) "LEFT") as [Er|Er];
        destruct (String.eqb_spec (state l) "LEFT") as [El|El];
        destruct (String.eqb_spec (state r) "DECLINED") as [Ed|Ed];
        destruct (String.eqb_spec (state r) "NOTIFIED") as [En|En];
        simpl; repeat split; intros; try reflexivity;
        try congruence; try tauto;
        match goal with H : _ \/ _ |- _ => destruct H; congruence end.
    + intros H. unfold status_fn. rewrite Hfirst.
      destruct H as [-> | ->]; [destruct rem|destruct loc]; reflexivity.
Qed.

(** The derived [status] of a call is that rule at the call's derived
    [joinedOnThisDevice], [local] and [remote]. *)
Lemma status_is_status_fn (c : Call) :
  status c = status_fn (joinedOnThisDevice c) (local c) (remote c).
Proof. reflexivity. Qed.

(** ** First snapshot *)

(** C2. On a call without a session, reconciliation adopts the incoming
    snapshot: the comparator is not consulted (the trace is empty), the
    session becomes the snapshot, nothing else of the call changes, no reply
    of the session service is consumed, and the promise resolves. *)
Theorem setLocus_first_snapshot (w : World) (c : Call) (incoming : Locus) :
  locus c = None ->
  outcome (_setLocus incoming w c) = Resolved tt /\
  locus (call (_setLocus incoming w c)) = Some incoming /\
  call (_setLocus incoming w c) = with_locus (Some incoming) c /\
  trace (_setLocus incoming w c) = [] /\
  filter isCompared (trace (_setLocus incoming w c)) = [] /\
  world (_setLocus incoming w c) = w.
Proof.
  intros H. unfold _setLocus.
  destruct (session w) eqn:Es; simpl; rewrite H; simpl;
    rewrite <- Es, with_session_same; repeat split; reflexivity.
Qed.

(** ** answer *)

(** C10. On a call without a session [answer] resolves at once: apart from
    its log line it does nothing: no request is sent, the call and the
    pending replies are untouched, whatever the direction parser says. *)
Theorem answer_without_session (options : Options) (w : World) (c : Call) :
  locus c = None ->
  outcome (answer options w c) = Resolved tt /\
  call (answer options w c) = c /\
  world (answer options w c) = w /\
  trace (answer options w c) = [Log "call: answering"].
Proof.
  intros H. unfold answer. rewrite bind_emit, bind_this, H.
  repeat split; reflexivity.
Qed.

(** ** toggleFacingMode *)

(** C8. On an audio-only call (no video constraint), or when the recorded
    facing mode is neither user nor environment, [toggleFacingMode] throws
    before it returns a promise; no local stream is requested or swapped in:
    the trace is empty and the call is unchanged. *)
Theorem toggleFacingMode_invalid (w : World) (c : Call) :
  videoConstraint (media c) = CFalsy \/
  (facingMode c <> Some "user" /\ facingMode c <> Some "environment") ->
  (exists e, outcome (toggleFacingMode w c) = Thrown e) /\
  call (toggleFacingMode w c) = c /\
  world (toggleFacingMode w c) = w /\
  trace (toggleFacingMode w c) = [].
Proof.
  intros H. unfold toggleFacingMode. rewrite bind_this. cbv zeta.
  destruct (truthy (videoConstraint (media c))) eqn:Ev; cbn [negb].
  - destruct H as [H|[Hu He]].
    + rewrite H in Ev. discriminate.
    + assert (Hf : isFacingMode (facingMode c) = false).
      { unfold isFacingMode. destruct (facingMode c) as [m|]; [|reflexivity].
        destruct (String.eqb_spec m "user") as [->|_]; [congruence|].
        destruct (String.eqb_spec m "environment") as [->|_]; [congruence|].
        reflexivity. }
      rewrite Hf. cbn [negb]. repeat split; try reflexivity.
      eexists; reflexivity.
  - repeat split; try reflexivity. eexists; reflexivity.
Qed.

(** ** Traces of the operations *)

Lemma quiet_ret p {A} (a : A) : quiet p (ret a).
Proof. intros w c. reflexivity. Qed.

Lemma quiet_settle p {A} (o : Settled A) : quiet p (settle o).
Proof. intros w c. reflexivity. Qed.

Lemma quiet_this p : quiet p this.
Proof. intros w c. reflexivity. Qed.

Lemma quiet_assign p f : quiet p (assign f).
Proof. intros w c. reflexivity. Qed.

Lemma quiet_emit p e : p e = false -> quiet p (emit e).
Proof. intros H w c. simpl. now rewrite H. Qed.

Lemma quiet_roundTrip p req : p (Sent req) = false -> quiet p (roundTrip req).
Proof. intros H w c. simpl. now rewrite H. Qed.

Lemma quiet_bind p {A B} (m : P A) (k : A -> P B) :
  quiet p m -> (forall a, quiet p (k a)) -> quiet p (bind m k).
Proof.
  intros Hm Hk w c. unfold bind.
  destruct (outcome (m w c)) eqn:E; simpl; try apply Hm.
  rewrite existsb_app, Hm, Hk. reflexivity.
Qed.

Lemma quiet_oneFlight p name body : quiet p body -> quiet p (oneFlight name body).
Proof.
  intros H w c. unfold oneFlight.
  destruct (existsb _ (inFlight c)); [reflexivity|].
  destruct (outcome (body w _)) eqn:E; simpl; apply H.
Qed.

Lemma quiet_setLocus_on p rs :
  (forall a b, p (Compared a b) = false) ->
  (forall l, p (Sent (ReqGet l)) = false) ->
  forall w c incoming, existsb p (trace (_setLocus_on rs w c incoming)) = false.
Proof.
  intros Hc Hg. induction rs as [|[l|e] rs IH]; intros w c incoming; simpl;
    destruct (locus c) as [current|]; try reflexivity;
    destruct (compare current incoming); simpl;
    rewrite ?Hc, ?Hg, ?IH; reflexivity.
Qed.

Lemma quiet_setLocus p incoming :
  (forall a b, p (Compared a b) = false) ->
  (forall l, p (Sent (ReqGet l)) = false) ->
  quiet p (_setLocus incoming).
Proof. intros Hc Hg w c. now apply quiet_setLocus_on. Qed.

Lemma quiet_reject_leave : quiet isLeave reject.
Proof.
  unfold reject. apply quiet_oneFlight.
  apply quiet_bind; [apply quiet_this|]. intros c.
  destruct (Direction_eqb _ _); [apply quiet_ret|].
  repeat (first [ apply quiet_bind; [|intros ?] | apply quiet_emit; reflexivity
          | apply quiet_roundTrip; reflexivity | apply quiet_setLocus; reflexivity ]).
Qed.

(** ** hangup *)

Lemma hangup_with_session n w c l :
  locus c = Some l ->
  Direction_eqb (direction c) dir_in && negb (joinedOnThisDevice c) = false ->
  hangup_ (S n) w c =
  traced (Log "call: hanging up") (traced MediaEnd (_hangup w c)).
Proof.
  intros Hl Hd. cbn [hangup_]. unfold hangup_body. rewrite bind_this, Hd, !bind_emit, Hl.
  reflexivity.
Qed.

Lemma hangup_delegates n w c :
  Direction_eqb (direction c) dir_in && negb (joinedOnThisDevice c) = true ->
  hangup_ (S n) w c = reject w c.
Proof.
  intros Hd. cbn [hangup_]. unfold hangup_body. rewrite bind_this, Hd. reflexivity.
Qed.

Lemma existsb_split_false p (t pre post : list Effect) e :
  existsb p t = false -> t = pre ++ e :: post -> p e = false.
Proof.
  intros H ->. rewrite existsb_app in H. simpl in H.
  apply orb_false_iff in H as [_ H]. now apply orb_false_iff in H as [H _].
Qed.

Lemma _hangup_starts w c :
  existsb (String.eqb "_hangup") (inFlight c) = false ->
  (exists rest, trace (_hangup w c) = Sent (ReqLeave (locus c)) :: rest) /\
  (forall e rs, session w = Rejects e :: rs ->
     outcome (_hangup w c) = Rejected e /\
     trace (_hangup w c) = [Sent (ReqLeave (locus c))]).
Proof.
  intros Hf. unfold _hangup, oneFlight. rewrite Hf.
  rewrite bind_assign, bind_this.
  set (c1 := with_locusLeaveInFlight true _).
  change (locus c1) with (locus c).
  set (k := fun l : Locus => _).
  split.
  - assert (Ht : exists rest, trace (bind (roundTrip (ReqLeave (locus c))) k w c1)
                  = Sent (ReqLeave (locus c)) :: rest).
    { unfold bind. destruct (outcome (roundTrip _ w c1)); cbn [trace roundTrip app];
        eexists; reflexivity. }
    destruct Ht as [rest Ht].
    destruct (outcome (bind _ k w c1)); cbn [trace]; eauto.
  - intros e rs Hs.
    assert (Ho : outcome (roundTrip (ReqLeave (locus c)) w c1) = Rejected e).
    { cbn. rewrite Hs. reflexivity. }
    rewrite (bind_rejected _ _ _ _ _ Ho). cbn. split; reflexivity.
Qed.

(** C3. On a call with a session, [hangup] stops local media before any
    leave round trip: every leave request in its trace has [MediaEnd] before
    it (on the branch that hands over to [reject] no leave is sent at all).
    When hangup does the leave itself, its trace starts with the media stop
    followed by the leave request, and a leave that is rejected rejects
    hangup with the same reason, the media having been stopped. *)
Theorem hangup_stops_media_first (w : World) (c : Call) (l : Locus) :
  locus c = Some l ->
  (forall pre post x,
     trace (hangup w c) = pre ++ Sent (ReqLeave x) :: post ->
     In MediaEnd pre) /\
  (Direction_eqb (direction c) dir_in && negb (joinedOnThisDevice c) = false ->
   existsb (String.eqb "_hangup") (inFlight c) = false ->
   (exists rest,
      trace (hangup w c) =
      Log "call: hanging up" :: MediaEnd :: Sent (ReqLeave (Some l)) :: rest) /\
   (forall e rs, session w = Rejects e :: rs ->
      outcome (hangup w c) = Rejected e /\
      trace (hangup w c) =
      [Log "call: hanging up"; MediaEnd; Sent (ReqLeave (Some l))])).
Proof.
  intros Hl. unfold hangup. split.
  - intros pre post x Ht.
    destruct (Direction_eqb (direction c) dir_in && negb (joinedOnThisDevice c)) eqn:Hd.
    + rewrite hangup_delegates in Ht by assumption.
      pose proof (existsb_split_false _ _ _ _ _ (quiet_reject_leave w c) Ht) as Hx.
      discriminate.
    + rewrite (hangup_with_session _ _ _ _ Hl Hd) in Ht.
      cbn [trace traced] in Ht.
      destruct pre as [|e1 [|e2 pre]]; cbn [app] in Ht; try discriminate.
      injection Ht as _ He2 _. subst e2. cbn. auto.
  - intros Hd Hf. rewrite (hangup_with_session _ _ _ _ Hl Hd).
    destruct (_hangup_starts w c Hf) as [[rest Hr] Hrej]. rewrite Hl in *.
    split.
    + exists rest. cbn [trace traced]. rewrite Hr. reflexivity.
    + intros e rs Hs. destruct (Hrej e rs Hs) as [Ho Ht].
      cbn [trace traced outcome]. rewrite Ho, Ht. split; reflexivity.
Qed.

(** ** Refetching *)

Lemma setLocus_on_fetch rs w c current incoming l :
  locus c = Some current ->
  compare current incoming = FETCH ->
  _setLocus_on (Resolves l :: rs) w c incoming =
  traced (Compared current incoming)
    (traced (Sent (ReqGet (Some current))) (_setLocus_on rs w c l)).
Proof. intros Hl Hc. cbn [_setLocus_on]. rewrite Hl, Hc. reflexivity. Qed.

Lemma setLocus_on_accepts rs w c current l :
  locus c = Some current ->
  compare current l <> FETCH ->
  outcome (_setLocus_on rs w c l) = Resolved tt /\
  trace (_setLocus_on rs w c l) = [Compared current l] /\
  world (_setLocus_on rs w c l) = with_session rs w /\
  call (_setLocus_on rs w c l) = call (_setLocus_on [] w c l).
Proof.
  intros Hl Hc.
  destruct rs as [|[x|e] rs]; cbn [_setLocus_on]; rewrite Hl;
    destruct (compare current l); try congruence; repeat split; reflexivity.
Qed.

Lemma setLocus_on_refetch stale : forall w c current incoming fresh rest,
  locus c = Some current ->
  compare current incoming = FETCH ->
  Forall (fun l => compare current l = FETCH) stale ->
  compare current fresh <> FETCH ->
  let r := _setLocus_on (map Resolves stale ++ Resolves fresh :: rest) w c
             incoming in
  outcome r = Resolved tt /\
  filter isGet (trace r) =
    repeat (Sent (ReqGet (Some current))) (S (length stale)) /\
  world r = with_session rest w /\
  call r = call (_setLocus_on [] w c fresh).
Proof.
  induction stale as [|s stale IH]; intros w c current incoming fresh rest
    Hl Hc Hst Hf r; subst r.
  - cbn [map app]. rewrite (setLocus_on_fetch _ _ _ _ _ _ Hl Hc).
    destruct (setLocus_on_accepts rest w c current fresh Hl Hf)
      as (Ho & Ht & Hw & Hcall).
    cbn [traced outcome trace world call]. rewrite Ho, Ht, Hw, Hcall.
    repeat split; reflexivity.
  - cbn [map app]. rewrite (setLocus_on_fetch _ _ _ _ _ _ Hl Hc).
    inversion Hst as [|? ? Hs Hst']; subst.
    destruct (IH w c current s fresh rest Hl Hs Hst' Hf) as (Ho & Ht & Hw & Hcall).
    cbn [traced outcome trace world call]. rewrite Ho, Hw, Hcall.
    repeat split; try reflexivity.
    cbn [filter isGet]. rewrite Ht. reflexivity.
Qed.

(** C6. When the comparator answers FETCH, [_setLocus] fetches the session
    and reconciles the fetched copy, again and again while the fetched copy
    is itself classified FETCH: for a run of [stale] copies of any length
    followed by a copy the comparator accepts or ignores, the promise
    resolves after exactly one fetch per stale copy plus one, each of the
    current session, and the call is left as reconciling the accepted copy
    leaves it.  No bound on the number of fetches appears. *)
Theorem setLocus_refetch_until_accepted (w : World) (c : Call)
  (current incoming fresh : Locus) (stale : list Locus)
  (rest : list (Reply Locus)) :
  locus c = Some current ->
  compare current incoming = FETCH ->
  Forall (fun l => compare current l = FETCH) stale ->
  compare current fresh <> FETCH ->
  session w = map Resolves stale ++ Resolves fresh :: rest ->
  outcome (_setLocus incoming w c) = Resolved tt /\
  fetches (trace (_setLocus incoming w c)) = S (length stale) /\
  filter isGet (trace (_setLocus incoming w c)) =
    repeat (Sent (ReqGet (Some current))) (S (length stale)) /\
  session (world (_setLocus incoming w c)) = rest /\
  call (_setLocus incoming w c) =
    call (_setLocus fresh (with_session [] w) c).
Proof.
  intros Hl Hc Hst Hf Hs. unfold _setLocus, fetches. rewrite Hs.
  destruct (setLocus_on_refetch stale w c current incoming fresh rest
              Hl Hc Hst Hf) as (Ho & Ht & Hw & Hcall).
  rewrite Ho, Ht, Hw, Hcall, repeat_length.
  repeat split; reflexivity.
Qed.

(** ** The correlation id *)

Lemma bind_assoc {A B C} (m : P A) (k1 : A -> P B) (k2 : B -> P C) w c :
  bind (bind m k1) k2 w c = bind m (fun a => bind (k1 a) k2) w c.
Proof.
  unfold bind. destruct (outcome (m w c)); cbn; try reflexivity.
  destruct (outcome (k1 a _ _)); cbn; rewrite <- ?app_assoc; reflexivity.
Qed.

Lemma setLocus_on_correlationId rs : forall w c incoming,
  correlationId (call (_setLocus_on rs w c incoming)) = correlationId c \/
  exists d, device (call (_setLocus_on rs w c incoming)) = Some d /\
            correlationId (call (_setLocus_on rs w c incoming)) =
            d_correlationId d.
Proof.
  induction rs as [|[l|e] rs IH]; intros w c incoming; cbn [_setLocus_on];
    destruct (locus c) as [current|] eqn:Hl; try (left; reflexivity);
    destruct (compare current incoming); try (left; reflexivity);
    cbn [call];
    try (destruct (device (with_locus (Some incoming) c)) as [d|] eqn:Hd;
         [right; exists d; split; [exact Hd | reflexivity] | left; reflexivity]).
  apply IH.
Qed.

(** What [_join_media] leaves alone. *)
Lemma join_media_runs options w c :
  outcome (_join_media options w c) = Resolved tt /\
  world (_join_media options w c) = w /\
  correlationId (call (_join_media options w c)) = correlationId c /\
  locus (call (_join_media options w c)) = locus c /\
  locusJoinInFlight (call (_join_media options w c)) = locusJoinInFlight c /\
  inFlight (call (_join_media options w c)) = inFlight c.
Proof.
  unfold _join_media. destruct (o_localMediaStream options) as [s|].
  - rewrite bind_emit. cbn. repeat split; reflexivity.
  - destruct (match o_constraints options with
              | Some cs => cs
              | None => (CTrue, CObject (Some defaultFacingMode))
              end) as [a v].
    destruct (isFacingMode _).
    + rewrite bind_assign, bind_emit. cbn. repeat split; reflexivity.
    + rewrite bind_ret, bind_emit. cbn. repeat split; reflexivity.
Qed.

Lemma truthy_str_some (s : string) : s <> "" -> truthy_str (Some s) = true.
Proof.
  intros H. unfold truthy_str.
  destruct (String.eqb_spec s ""); [contradiction|reflexivity].
Qed.

Lemma join_correlationId_fresh target w c :
  truthy_str (target_correlationId target) = false ->
  uuid w <> "" ->
  _join_correlationId target w c =
  ret tt w (with_correlationId (Some (uuid w)) c).
Proof.
  intros Ht Hu. unfold _join_correlationId. rewrite Ht. cbn [negb].
  rewrite bind_assoc, bind_uuid, bind_assign, bind_this.
  cbn [correlationId with_correlationId].
  rewrite (truthy_str_some _ Hu). reflexivity.
Qed.

Lemma join_correlationId_kept target w c :
  truthy_str (target_correlationId target) = true ->
  truthy_str (correlationId c) = true ->
  _join_correlationId target w c = ret tt w c.
Proof.
  intros Ht Hc. unfold _join_correlationId. rewrite Ht. cbn [negb].
  rewrite bind_ret, bind_this, Hc. reflexivity.
Qed.

Lemma join_correlationId_taken target w c :
  truthy_str (target_correlationId target) = true ->
  truthy_str (correlationId c) = false ->
  _join_correlationId target w c =
  ret tt w (with_correlationId (target_correlationId target) c).
Proof.
  intros Ht Hc. unfold _join_correlationId. rewrite Ht. cbn [negb].
  rewrite bind_ret, bind_this, Hc. reflexivity.
Qed.

(** C5, as the code has it.  The correlation id is not write-once.
    [_join] gives it a fresh uuid whenever its target carries none, even if
    one was set before; with a target that carries one, it keeps a value
    already set and otherwise takes the target's.  Reconciliation leaves it
    alone on a call without a session and when the comparator answers
    anything but USE_INCOMING without a fetch; on USE_INCOMING it overwrites
    it with the correlation id of this device's record in the adopted
    snapshot, when the snapshot has such a record.  Whatever the replies,
    after [_setLocus] the correlation id is the old one or that of this
    device's record in the call's session. *)
Theorem correlationId_reassigned :
  (forall target w c,
     (truthy_str (target_correlationId target) = false -> uuid w <> "" ->
        correlationId (call (_join_correlationId target w c)) =
        Some (uuid w)) /\
     (truthy_str (target_correlationId target) = true ->
      truthy_str (correlationId c) = true ->
        correlationId (call (_join_correlationId target w c)) =
        correlationId c) /\
     (truthy_str (target_correlationId target) = true ->
      truthy_str (correlationId c) = false ->
        correlationId (call (_join_correlationId target w c)) =
        target_correlationId target)) /\
  (forall w c incoming,
     (locus c = None ->
        correlationId (call (_setLocus incoming w c)) = correlationId c) /\
     (forall current, locus c = Some current ->
        compare current incoming = USE_CURRENT ->
        correlationId (call (_setLocus incoming w c)) = correlationId c) /\
     (forall current, locus c = Some current ->
        compare current incoming = USE_INCOMING ->
        correlationId (call (_setLocus incoming w c)) =
        match device (with_locus (Some incoming) c) with
        | Some d => d_correlationId d
        | None => correlationId c
        end) /\
     (correlationId (call (_setLocus incoming w c)) = correlationId c \/
      exists d, device (call (_setLocus incoming w c)) = Some d /\
                correlationId (call (_setLocus incoming w c)) =
                d_correlationId d)).
Proof.
  split.
  - intros target w c. repeat split.
    + intros Ht Hu. now rewrite join_correlationId_fresh.
    + intros Ht Hc. now rewrite join_correlationId_kept.
    + intros Ht Hc. now rewrite join_correlationId_taken.
  - intros w c incoming. unfold _setLocus. repeat split.
    + intros Hl. destruct (session w) as [|[l|e] rs]; cbn [_setLocus_on];
        rewrite Hl; reflexivity.
    + intros current Hl Hc.
      destruct (session w) as [|[l|e] rs]; cbn [_setLocus_on];
        rewrite Hl, Hc; reflexivity.
    + intros current Hl Hc.
      destruct (session w) as [|[l|e] rs]; cbn [_setLocus_on];
        rewrite Hl, Hc; cbn [call];
        destruct (device (with_locus (Some incoming) c)); reflexivity.
    + apply setLocus_on_correlationId.
Qed.

(** ** Reconciling the same snapshot twice *)

(** The adoption step of [_setLocus] (its USE_INCOMING branch). *)
Lemma adopt_again (c : Call) (incoming : Locus) :
  let c1 := match device (with_locus (Some incoming) c) with
            | Some d =>
                with_correlationId (d_correlationId d)
                  (with_locus (Some incoming) c)
            | None => with_locus (Some incoming) c
            end in
  match device (with_locus (Some incoming) c1) with
  | Some d => with_correlationId (d_correlationId d)
                (with_locus (Some incoming) c1)
  | None => with_locus (Some incoming) c1
  end = c1.
Proof.
  cbv zeta. unfold device. cbn [locus with_locus].
  destruct (self incoming) as [s|]; [|reflexivity].
  destruct (find _ (devices s)) as [d|] eqn:Hd; cbn [locus with_locus with_correlationId];
    rewrite ?Hd; reflexivity.
Qed.

(** C9, as the code has it.  On a call that has a session, when the
    comparator asks for a refetch neither for the snapshot against the
    current session nor for the snapshot against itself, reconciling the
    snapshot a second time resolves, sends nothing, consumes no reply and
    leaves the call exactly as the first reconciliation left it: no
    attribute changes, so no change notification is due. *)
Theorem setLocus_twice (w : World) (c : Call) (current incoming : Locus) :
  locus c = Some current ->
  compare current incoming <> FETCH ->
  compare incoming incoming <> FETCH ->
  outcome (_setLocus incoming (world (_setLocus incoming w c))
             (call (_setLocus incoming w c))) = Resolved tt /\
  call (_setLocus incoming (world (_setLocus incoming w c))
          (call (_setLocus incoming w c))) = call (_setLocus incoming w c) /\
  world (_setLocus incoming (world (_setLocus incoming w c))
           (call (_setLocus incoming w c))) = world (_setLocus incoming w c) /\
  fetches (trace (_setLocus incoming (world (_setLocus incoming w c))
                    (call (_setLocus incoming w c)))) = 0.
Proof.
  intros Hl H1 H2.
  assert (E1 : _setLocus incoming w c =
               {| outcome := Resolved tt;
                  call := match compare current incoming with
                          | USE_INCOMING =>
                              match device (with_locus (Some incoming) c) with
                              | Some d => with_correlationId (d_correlationId d)
                                            (with_locus (Some incoming) c)
                              | None => with_locus (Some incoming) c
                              end
                          | _ => c
                          end;
                  world := w;
                  trace := [Compared current incoming] |}).
  { unfold _setLocus.
    destruct (session w) as [|[l|e] rs] eqn:Hs; cbn [_setLocus_on];
      rewrite Hl; destruct (compare current incoming); try congruence;
      rewrite <- Hs, with_session_same; reflexivity. }
  rewrite E1. cbn [call world].
  destruct (compare current incoming) eqn:Hc; try congruence.
  - set (c1 := match device _ with Some d => _ | None => _ end).
    assert (Hl1 : locus c1 = Some incoming).
    { unfold c1. destruct (device _); reflexivity. }
    unfold _setLocus.
    destruct (session w) as [|[l|e] rs] eqn:Hs; cbn [_setLocus_on];
      rewrite Hl1; destruct (compare incoming incoming) eqn:Hc2;
      try congruence; cbn [outcome call world trace];
      rewrite <- ?Hs, ?with_session_same;
      repeat split; try reflexivity; try (apply adopt_again).
  - unfold _setLocus.
    destruct (session w) as [|[l|e] rs] eqn:Hs; cbn [_setLocus_on];
      rewrite Hl, Hc; cbn [outcome call world trace];
      rewrite <- ?Hs, ?with_session_same; repeat split; reflexivity.
Qed.

(** ** Polling for the expected session *)

Lemma boolToStatus_total (s r : bool) : boolToStatus s r <> None.
Proof. destruct s, r; discriminate. Qed.

Lemma expected_resolves (c : Call) (l l' : Locus) :
  expected c l = Resolves l' ->
  l' = l /\
  exists s ea ev,
    self l = Some s /\
    boolToStatus (truthy (audio (media c))) (offerToReceiveAudio (media c))
      = Some ea /\
    boolToStatus (truthy (video (media c))) (offerToReceiveVideo (media c))
      = Some ev /\
    toLowerCase (audioStatus (p_status s)) = ea /\
    toLowerCase (videoStatus (p_status s)) = ev.
Proof.
  unfold expected. destruct (self l) as [s|]; [|discriminate].
  destruct (boolToStatus (truthy (audio (media c))) _) as [ea|]; [|discriminate].
  destruct (boolToStatus (truthy (video (media c))) _) as [ev|]; [|discriminate].
  destruct (String.eqb_spec (toLowerCase (audioStatus (p_status s))) ea) as [Ea|];
    [|discriminate].
  destruct (String.eqb_spec (toLowerCase (videoStatus (p_status s))) ev) as [Ev|];
    [|discriminate].
  cbn [negb]. intros H. injection H as <-. split; [reflexivity|].
  exists s, ea, ev. repeat split; assumption.
Qed.

Lemma fetch_once_run w c :
  _fetchExpectedLocus_once w c =
  {| outcome := settled_expected c (session w); call := c;
     world := with_session (tl (session w)) w;
     trace := [Sent (ReqGet (locus c))] |}.
Proof.
  unfold _fetchExpectedLocus_once. rewrite bind_this.
  destruct (session w) as [|[l|e] rs] eqn:Hs.
  - rewrite bind_pending; cbn; rewrite Hs; reflexivity.
  - rewrite (bind_resolved _ _ _ _ l) by (cbn; rewrite Hs; reflexivity).
    rewrite bind_this. cbn. rewrite Hs. cbn.
    destruct (expected c l); reflexivity.
  - rewrite (bind_rejected _ _ _ _ e) by (cbn; rewrite Hs; reflexivity).
    cbn. rewrite Hs. reflexivity.
Qed.

Lemma retry_0 {A} (body : P A) w c : retry_ 0 body w c = body w c.
Proof. cbn [retry_]. destruct (outcome (body w c)); reflexivity. Qed.

Lemma retry_S_rejected {A} n (body : P A) w c e :
  outcome (body w c) = Rejected e ->
  retry_ (S n) body w c =
  {| outcome := outcome (retry_ n body (world (body w c)) (call (body w c)));
     call := call (retry_ n body (world (body w c)) (call (body w c)));
     world := world (retry_ n body (world (body w c)) (call (body w c)));
     trace := trace (body w c) ++
              trace (retry_ n body (world (body w c)) (call (body w c))) |}.
Proof. intros H. cbn [retry_]. rewrite H. reflexivity. Qed.

Lemma retry_S_settled {A} n (body : P A) w c :
  (forall e, outcome (body w c) <> Rejected e) ->
  retry_ (S n) body w c = body w c.
Proof.
  intros H. cbn [retry_]. destruct (outcome (body w c)) eqn:E;
    try reflexivity. exfalso. eapply H. reflexivity.
Qed.

Lemma settled_expected_resolved c rs l :
  settled_expected c rs = Resolved l ->
  expected c l = Resolves l /\ exists rs', rs = Resolves l :: rs'.
Proof.
  destruct rs as [|[x|e] rs']; cbn; try discriminate.
  destruct (expected c x) as [l'|e] eqn:E; [|discriminate].
  intros H. injection H as ->.
  destruct (expected_resolves _ _ _ E) as [-> _]. split; [assumption|].
  eexists; reflexivity.
Qed.

Lemma retry_fetch_spec n : forall w c,
  call (retry_ n _fetchExpectedLocus_once w c) = c /\
  (forall l, outcome (retry_ n _fetchExpectedLocus_once w c) = Resolved l ->
     expected c l = Resolves l /\
     In (Resolves l) (firstn (S n) (session w))) /\
  1 <= fetches (trace (retry_ n _fetchExpectedLocus_once w c)) <= S n /\
  (forall e, outcome (retry_ n _fetchExpectedLocus_once w c) = Rejected e ->
     fetches (trace (retry_ n _fetchExpectedLocus_once w c)) = S n).
Proof.
  induction n as [|n IH]; intros w c.
  - rewrite retry_0, fetch_once_run. cbn [outcome call trace].
    repeat split; try (cbn; lia).
    + now apply settled_expected_resolved in H.
    + apply settled_expected_resolved in H as [_ [rs' ->]]. now left.
  - destruct (settled_expected c (session w)) as [l|e| | |] eqn:E.
    + rewrite retry_S_settled
        by (intros e; rewrite fetch_once_run; cbn [outcome]; congruence).
      rewrite fetch_once_run. cbn [outcome call trace].
      repeat split; try (cbn; lia); try congruence.
      * rewrite E in H. injection H as <-.
        now apply settled_expected_resolved in E.
      * rewrite E in H. injection H as <-.
        apply settled_expected_resolved in E as [_ [rs' ->]]. now left.
    + rewrite (retry_S_rejected _ _ _ _ e)
        by (rewrite fetch_once_run; cbn [outcome]; assumption).
      rewrite fetch_once_run. cbn [outcome call world trace app].
      destruct (IH (with_session (tl (session w)) w) c) as (Hc & Hr & Hf & He).
      unfold fetches in *. cbn [filter isGet length].
      repeat split; try lia.
      * exact Hc.
      * now apply Hr.
      * apply Hr in H as [_ H]. cbn [session with_session] in H.
        destruct (session w) as [|x rs]; [destruct H|]. right. exact H.
      * intros e' H. apply He in H. lia.
    + rewrite retry_S_settled
        by (intros e; rewrite fetch_once_run; cbn [outcome]; congruence).
      rewrite fetch_once_run. cbn [outcome call trace].
      repeat split; try (cbn; lia); try reflexivity;
        intros; rewrite E in *; discriminate.
    + destruct (session w) as [|[x|e] rs]; cbn in E; try discriminate.
      destruct (expected c x); discriminate.
    + destruct (session w) as [|[x|e] rs]; cbn in E; try discriminate.
      destruct (expected c x); discriminate.
Qed.

Lemma fetchExpectedLocus_unfold :
  _fetchExpectedLocus = retry_ 2 _fetchExpectedLocus_once.
Proof. reflexivity. Qed.

Lemma retry_second_attempt {A} (body : P A) w c e a :
  outcome (body w c) = Rejected e ->
  outcome (body (world (body w c)) (call (body w c))) = Resolved a ->
  outcome (retry_ 2 body w c) = Resolved a.
Proof.
  intros E1 E2. rewrite (retry_S_rejected _ _ _ _ e E1). cbn [outcome].
  rewrite retry_S_settled by (intros e'; rewrite E2; discriminate).
  exact E2.
Qed.

Lemma fetch_second_attempt w c l1 l2 e rs :
  session w = Resolves l1 :: Resolves l2 :: rs ->
  expected c l1 = Rejects e -> expected c l2 = Resolves l2 ->
  outcome (retry_ 2 _fetchExpectedLocus_once w c) = Resolved l2.
Proof.
  intros Hs H1 H2. apply retry_second_attempt with e.
  - rewrite fetch_once_run. cbn [outcome]. rewrite Hs.
    cbn [settled_expected]. rewrite H1. reflexivity.
  - rewrite !fetch_once_run. cbn [outcome world call session with_session].
    rewrite Hs. cbn [tl settled_expected]. rewrite H2. reflexivity.
Qed.

(** C7, as the code has it.  [_fetchExpectedLocus] resolves with a snapshot
    only if the snapshot's reported audio and video status strings, once
    lower-cased, equal the values [boolToStatus] gives for the local
    (sending, receiving) flags: sendrecv, sendonly, recvonly or inactive.  A
    snapshot that does not match is an error like a failed fetch: the fetch
    is tried again, a later matching snapshot is returned, and there are at
    most [maxAttempts] = 3 fetches; a rejection reaches the caller only after
    the third.  The call itself is not changed. *)
Theorem fetchExpectedLocus_checked (w : World) (c : Call) :
  (forall l, outcome (_fetchExpectedLocus w c) = Resolved l ->
     In (Resolves l) (firstn 3 (session w)) /\
     exists s ea ev,
       self l = Some s /\
       boolToStatus (truthy (audio (media c))) (offerToReceiveAudio (media c))
         = Some ea /\
       boolToStatus (truthy (video (media c))) (offerToReceiveVideo (media c))
         = Some ev /\
       toLowerCase (audioStatus (p_status s)) = ea /\
       toLowerCase (videoStatus (p_status s)) = ev) /\
  (boolToStatus true true = Some "sendrecv" /\
   boolToStatus true false = Some "sendonly" /\
   boolToStatus false true = Some "recvonly" /\
   boolToStatus false false = Some "inactive") /\
  (forall l1 l2 e rs,
     session w = Resolves l1 :: Resolves l2 :: rs ->
     expected c l1 = Rejects e -> expected c l2 = Resolves l2 ->
     outcome (_fetchExpectedLocus w c) = Resolved l2) /\
  maxAttempts = 3 /\
  1 <= fetches (trace (_fetchExpectedLocus w c)) <= 3 /\
  (forall e, outcome (_fetchExpectedLocus w c) = Rejected e ->
     fetches (trace (_fetchExpectedLocus w c)) = 3) /\
  call (_fetchExpectedLocus w c) = c.
Proof.
  rewrite fetchExpectedLocus_unfold.
  destruct (retry_fetch_spec 2 w c) as (Hc & Hr & Hf & He).
  split; [|split; [|split; [|split; [reflexivity|split; [|split]]]]].
  - intros l H. split.
    + now apply Hr.
    + apply Hr in H as [H _]. apply expected_resolves in H as [_ H]. exact H.
  - repeat split; reflexivity.
  - intros l1 l2 e rs Hs H1 H2. apply fetch_second_attempt with l1 e rs; assumption.
  - exact Hf.
  - exact He.
  - exact Hc.
Qed.


(** ** The join flag *)


(** No statement of [_join] sets [locusJoinInFlight]: the flag is cleared
    when the reply lands and is otherwise as it was. *)
Lemma join_exchange_flag method target w c :
  locusJoinInFlight (call (_join_exchange method target w c)) = true ->
  locusJoinInFlight c = true.
Proof.
  unfold _join_exchange.
  destruct (offers w) as [|[offer|e] os] eqn:Ho.
  - rewrite bind_pending by (cbn [outcome createOffer]; rewrite Ho; reflexivity). cbn. trivial.
  - rewrite (bind_resolved _ _ _ _ offer) by (cbn [outcome createOffer]; rewrite Ho; reflexivity).
    cbn [call createOffer world]. rewrite bind_this.
    set (w1 := with_offers _ w).
    destruct (session w1) as [|[l|e] rs] eqn:Hs.
    + rewrite bind_pending by (cbn [outcome roundTrip]; rewrite Hs; reflexivity). cbn. trivial.
    + rewrite (bind_resolved _ _ _ _ l) by (cbn [outcome roundTrip]; rewrite Hs; reflexivity).
      cbn [call roundTrip world].
      set (w2 := with_session _ w1).
      rewrite (bind_resolved _ _ _ _ tt) by reflexivity.
      cbn [call detached world]. rewrite bind_assign, bind_this.
      set (c2 := with_locusJoinInFlight false _).
      assert (H2 : forall r : Run unit, call r = c2 ->
                   locusJoinInFlight (call r) = true -> locusJoinInFlight c = true).
      { intros r -> H. discriminate H. }
      destruct (mediaConnection c2) as [mc|]; [|apply H2; reflexivity].
      destruct (parseSdp (remoteSdp mc)); apply H2; reflexivity.
    + rewrite (bind_rejected _ _ _ _ e) by (cbn [outcome roundTrip]; rewrite Hs; reflexivity).
      cbn. trivial.
  - rewrite (bind_rejected _ _ _ _ e) by (cbn [outcome createOffer]; rewrite Ho; reflexivity).
    cbn. trivial.
Qed.

Lemma with_correlationId_same (c : Call) :
  with_correlationId (correlationId c) c = c.
Proof. destruct c; reflexivity. Qed.

Lemma join_never_sets_flag method target options w c :
  locusJoinInFlight (call (_join method target options w c)) = true ->
  locusJoinInFlight c = true.
Proof.
  unfold _join.
  destruct (join_media_runs options w c) as (Ho & Hw & _ & _ & Hf & _).
  rewrite (bind_resolved _ _ _ _ tt Ho). cbn [call]. rewrite Hw.
  set (c1 := call (_join_media options w c)) in *.
  assert (Hc : exists v, _join_correlationId target w c1 =
                         ret tt w (with_correlationId v c1)).
  { unfold _join_correlationId.
    destruct (negb (truthy_str (target_correlationId target))).
    - rewrite bind_assoc, bind_uuid, bind_assign, bind_this.
      destruct (negb _); eexists; [reflexivity|].
      rewrite <- (with_correlationId_same (with_correlationId _ c1)) at 1.
      reflexivity.
    - rewrite bind_ret, bind_this.
      destruct (negb _); eexists; [reflexivity|].
      rewrite <- (with_correlationId_same c1) at 1. reflexivity. }
  destruct Hc as [v Hc].
  rewrite (bind_resolved _ _ _ _ tt) by (rewrite Hc; reflexivity).
  cbn [call]. rewrite Hc. cbn [call world ret].
  intros H. apply join_exchange_flag in H. rewrite <- Hf. exact H.
Qed.

(** [hangup] on a call without a session, by the flag. *)
Lemma hangup_no_session_no_flag w c :
  locus c = None -> locusJoinInFlight c = false ->
  hangup w c =
  {| outcome := Resolved tt; call := c; world := w;
     trace := [Log "call: hanging up"; MediaEnd; StopListening; Off;
               Log "call: hang up complete, call never created"] |}.
Proof.
  intros Hl Hf. unfold hangup. cbn [hangup_]. unfold hangup_body. rewrite bind_this.
  unfold direction. rewrite Hl. cbn [Direction_eqb andb].
  rewrite !bind_emit, Hf, !bind_emit. reflexivity.
Qed.

Lemma hangup_no_session_flag w c :
  locus c = None -> locusJoinInFlight c = true -> session w = [] ->
  hangup w c =
  {| outcome := Pending; call := c; world := w;
     trace := [Log "call: hanging up"; MediaEnd;
               Log "call: no locus, waiting for rest call to complete before hanging up";
               WhenChangeLocus] |}.
Proof.
  intros Hl Hf Hs. unfold hangup. cbn [hangup_]. unfold hangup_body. rewrite bind_this.
  unfold direction. rewrite Hl. cbn [Direction_eqb andb].
  rewrite !bind_emit, Hf, !bind_emit.
  rewrite bind_pending by (unfold whenChangeLocus; rewrite Hs; reflexivity).
  unfold whenChangeLocus. rewrite Hs. reflexivity.
Qed.

(** *** The depth of [hangup]'s self-call *)

Lemma hangup_with_locus_fuel n w c :
  locus c <> None -> hangup_ (S n) w c = hangup_ 1 w c.
Proof.
  intros Hl. cbn [hangup_]. unfold hangup_body. rewrite !bind_this.
  destruct (Direction_eqb (direction c) dir_in && negb (joinedOnThisDevice c));
    [reflexivity|].
  rewrite !bind_emit. destruct (locus c); [reflexivity|contradiction].
Qed.

Lemma bind_ext {A B} (m : P A) (k1 k2 : A -> P B) w c :
  (forall a, outcome (m w c) = Resolved a ->
     k1 a (world (m w c)) (call (m w c)) =
     k2 a (world (m w c)) (call (m w c))) ->
  bind m k1 w c = bind m k2 w c.
Proof.
  intros H. unfold bind.
  destruct (outcome (m w c)) as [a| | | |]; try reflexivity.
  rewrite (H a eq_refl). reflexivity.
Qed.

Lemma whenChangeLocus_sets_locus w c :
  locus c = None ->
  outcome (whenChangeLocus w c) = Resolved tt ->
  locus (call (whenChangeLocus w c)) <> None.
Proof.
  intros Hl. unfold whenChangeLocus.
  destruct (session w) as [|[l|e] rs]; cbn [outcome]; try discriminate.
  intros _. cbn [call detached with_locusJoinInFlight locus].
  unfold _setLocus. cbn [session with_session _setLocus_on]. rewrite Hl.
  discriminate.
Qed.

(** More depth changes nothing: after the wait the call has a session, and
    the self-call takes the branch that does not wait. *)
Lemma hangup_fuel n w c : hangup_ (S (S n)) w c = hangup w c.
Proof.
  unfold hangup. cbn [hangup_].
  set (deep := hangup_body (hangup_ n)).
  set (shallow := hangup_body (settle Pending)).
  unfold hangup_body. rewrite !bind_this.
  destruct (Direction_eqb (direction c) dir_in && negb (joinedOnThisDevice c));
    [reflexivity|].
  rewrite !bind_emit. destruct (locus c) eqn:Hl; [reflexivity|].
  destruct (locusJoinInFlight c); [|reflexivity].
  rewrite !bind_emit. do 3 f_equal.
  apply bind_ext. intros [] Ho.
  change deep with (hangup_ (S n)). change shallow with (hangup_ 1).
  rewrite (hangup_with_locus_fuel n)
    by (apply whenChangeLocus_sets_locus; assumption).
  reflexivity.
Qed.

(** * Further properties of call.js *)

(** ** Status, read backwards *)

(** X1. What each status tells about the session: connected only when this
    device has joined and the remote state is JOINED; disconnected only when
    both participant records exist and one state is LEFT or the remote state
    is DECLINED; ringing only when both records exist, the remote state is
    NOTIFIED and neither state is LEFT.  A local state DECLINED alone never
    disconnects. *)
Theorem status_only_if (joined : bool) (loc rem : option Participant) :
  (status_fn joined loc rem = connected ->
     joined = true /\ exists r, rem = Some r /\ state r = "JOINED") /\
  (status_fn joined loc rem = disconnected ->
     exists l r, loc = Some l /\ rem = Some r /\
       (state r = "LEFT" \/ state l = "LEFT" \/ state r = "DECLINED")) /\
  (status_fn joined loc rem = ringing ->
     exists l r, loc = Some l /\ rem = Some r /\
       state r = "NOTIFIED" /\ state r <> "LEFT" /\ state l <> "LEFT" /\
       state r <> "DECLINED").
Proof using.
  clear remoteParticipant direction_of joinedOnThisDevice_of compare
    deviceUrl defaultFacingMode parseSdp.
  unfold status_fn, participantIsJoined.
  destruct joined, rem as [r|], loc as [l|]; cbn [andb];
    repeat match goal with
    | |- context [String.eqb ?a ?b] => destruct (String.eqb_spec a b)
    end; cbn [orb];
    (split; [|split]); intros Hst; try discriminate Hst;
    try (split; [reflexivity|]);
    try (eexists; split; [reflexivity|assumption]);
    try (exists l, r; repeat split; auto).
Qed.

(** ** bool-to-status *)

(** X2. [boolToStatus] never reaches its final [throw], and it is one to
    one: two pairs of flags with the same status string are the same
    pair. *)
Theorem boolToStatus_one_to_one (s r s' r' : bool) :
  boolToStatus s r = boolToStatus s' r' ->
  s = s' /\ r = r' /\ boolToStatus s r <> None.
Proof using.
  destruct s, r, s', r'; cbn; intros H; try discriminate H;
    repeat split; discriminate.
Qed.
(** ** What reconciliation leaves alone *)





(** ** A fetch that fails *)

Lemma setLocus_on_fetch_rejected stale : forall w c current incoming e rest,
  locus c = Some current ->
  compare current incoming = FETCH ->
  Forall (fun l => compare current l = FETCH) stale ->
  let r := _setLocus_on (map Resolves stale ++ Rejects e :: rest) w c
             incoming in
  outcome r = Rejected e /\ call r = c /\
  filter isGet (trace r) =
    repeat (Sent (ReqGet (Some current))) (S (length stale)) /\
  world r = with_session rest w.
Proof.
  induction stale as [|s stale IH]; intros w c current incoming e rest
    Hl Hc Hst r; subst r.
  - cbn [map app _setLocus_on]. rewrite Hl, Hc. repeat split; reflexivity.
  - cbn [map app]. rewrite (setLocus_on_fetch _ _ _ _ _ _ Hl Hc).
    inversion Hst as [|? ? Hs Hst']; subst.
    destruct (IH w c current s e rest Hl Hs Hst') as (Ho & Hcall & Ht & Hw).
    cbn [traced outcome trace world call]. rewrite Ho, Hw, Hcall.
    repeat split; try reflexivity.
    cbn [filter isGet]. rewrite Ht. reflexivity.
Qed.

(** X4. When a fetch of the refetch loop fails, [_setLocus] rejects with
    the reason of that fetch and the call is exactly as it was: the stale
    copies fetched before were never stored.  One fetch was sent per stale
    copy, plus the failed one. *)
Theorem setLocus_fetch_rejected (w : World) (c : Call)
  (current incoming : Locus) (stale : list Locus) (e : string)
  (rest : list (Reply Locus)) :
  locus c = Some current ->
  compare current incoming = FETCH ->
  Forall (fun l => compare current l = FETCH) stale ->
  session w = map Resolves stale ++ Rejects e :: rest ->
  outcome (_setLocus incoming w c) = Rejected e /\
  call (_setLocus incoming w c) = c /\
  fetches (trace (_setLocus incoming w c)) = S (length stale) /\
  session (world (_setLocus incoming w c)) = rest.
Proof.
  intros Hl Hc Hst Hs. unfold _setLocus, fetches. rewrite Hs.
  destruct (setLocus_on_fetch_rejected stale w c current incoming e rest
              Hl Hc Hst) as (Ho & Hcall & Ht & Hw).
  rewrite Ho, Hcall, Ht, Hw, repeat_length. repeat split; reflexivity.
Qed.
(** ** reject *)

Lemma remove_absent name (l : list string) :
  existsb (String.eqb name) l = false -> remove string_dec name l = l.
Proof.
  induction l as [|x l IH]; [reflexivity|]. cbn [existsb remove].
  intros H. apply orb_false_iff in H as [Hx Hl].
  destruct (string_dec name x) as [->|_].
  - rewrite String.eqb_refl in Hx. discriminate.
  - now rewrite IH.
Qed.

Lemma remove_head name (l : list string) :
  existsb (String.eqb name) l = false ->
  remove string_dec name (name :: l) = l.
Proof.
  intros H. cbn [remove]. destruct (string_dec name name); [|contradiction].
  now apply remove_absent.
Qed.

Lemma unflight name (c : Call) :
  existsb (String.eqb name) (inFlight c) = false ->
  with_inFlight (remove string_dec name (name :: inFlight c))
    (with_inFlight (name :: inFlight c) c) = c.
Proof.
  intros H. rewrite (remove_head _ _ H). destruct c; reflexivity.
Qed.

Lemma oneFlight_joined name body w c :
  existsb (String.eqb name) (inFlight c) = true ->
  oneFlight name body w c =
  {| outcome := Joined name; call := c; world := w; trace := [] |}.
Proof. intros H. unfold oneFlight. rewrite H. reflexivity. Qed.

Lemma oneFlight_first name body w c :
  existsb (String.eqb name) (inFlight c) = false ->
  outcome (body w (with_inFlight (name :: inFlight c) c)) <> Pending ->
  oneFlight name body w c =
  {| outcome := outcome (body w (with_inFlight (name :: inFlight c) c));
     call := with_inFlight
               (remove string_dec name
                  (inFlight (call (body w (with_inFlight (name :: inFlight c) c)))))
               (call (body w (with_inFlight (name :: inFlight c) c)));
     world := world (body w (with_inFlight (name :: inFlight c) c));
     trace := trace (body w (with_inFlight (name :: inFlight c) c)) |}.
Proof.
  intros H Hp. unfold oneFlight. rewrite H.
  destruct (outcome (body w _)) eqn:E; try reflexivity. contradiction.
Qed.

(** X5. [reject] on an outgoing call (a call without a session counts as
    outgoing) does nothing: no request, no log line, the call and the
    pending replies untouched; the promise resolves unless an earlier
    reject is still outstanding, whose promise is then returned. *)
Theorem reject_outbound_noop (w : World) (c : Call) :
  direction c = dir_out ->
  call (reject w c) = c /\ world (reject w c) = w /\ trace (reject w c) = [] /\
  (existsb (String.eqb "reject") (inFlight c) = false ->
   outcome (reject w c) = Resolved tt).
Proof.
  intros Hd. unfold reject.
  destruct (existsb (String.eqb "reject") (inFlight c)) eqn:Hf.
  - rewrite (oneFlight_joined _ _ _ _ Hf). repeat split. discriminate.
  - assert (Hd1 : direction (with_inFlight ("reject" :: inFlight c) c)
                   = dir_out) by exact Hd.
    rewrite oneFlight_first; try assumption;
      rewrite !bind_this, !Hd1; cbn [Direction_eqb outcome call world trace ret];
      [|discriminate].
    cbn [inFlight with_inFlight]. rewrite (remove_head _ _ Hf).
    repeat split. destruct c; reflexivity.
Qed.

Lemma roundTrip_rejected req w c e rs :
  session w = Rejects e :: rs -> outcome (roundTrip req w c) = Rejected e.
Proof. intros H. cbn [outcome roundTrip]. rewrite H. reflexivity. Qed.

Lemma roundTrip_resolved req w c l rs :
  session w = Resolves l :: rs -> outcome (roundTrip req w c) = Resolved l.
Proof. intros H. cbn [outcome roundTrip]. rewrite H. reflexivity. Qed.

(** X6. [reject] on an incoming call whose decline round trip fails: the
    rejection reaches the caller, and the call is not torn down: after the
    log line and the decline request nothing happens, the listeners stay
    attached and the session is the one the call had. *)
Theorem reject_failed_decline (w : World) (c : Call) (e : string)
  (rs : list (Reply Locus)) :
  direction c = dir_in ->
  existsb (String.eqb "reject") (inFlight c) = false ->
  session w = Rejects e :: rs ->
  outcome (reject w c) = Rejected e /\
  trace (reject w c) = [Log "call: rejecting"; Sent (ReqDecline (locus c))] /\
  existsb isTeardown (trace (reject w c)) = false /\
  call (reject w c) = c.
Proof.
  intros Hd Hf Hs.
  assert (Hd1 : direction (with_inFlight ("reject" :: inFlight c) c) = dir_in)
    by exact Hd.
  unfold reject.
  rewrite oneFlight_first; try assumption;
    rewrite !bind_this, !Hd1; cbn [Direction_eqb]; rewrite !bind_emit;
    rewrite !(bind_rejected _ _ _ _ e) by (eapply roundTrip_rejected; eassumption);
    cbn [traced outcome call world trace roundTrip]; [|discriminate].
  cbn [inFlight with_inFlight locus]. rewrite (remove_head _ _ Hf).
  repeat split. destruct c; reflexivity.
Qed.

Lemma traced_eta {A} (r : Run A) :
  {| outcome := outcome r; call := call r; world := world r;
     trace := trace r |} = r.
Proof. destruct r; reflexivity. Qed.

Lemma bind_roundTrip_resolved {B} req (k : Locus -> P B) w c l rs :
  session w = Resolves l :: rs ->
  bind (roundTrip req) k w c = traced (Sent req) (k l (with_session rs w) c).
Proof.
  intros H. unfold bind. cbn [outcome roundTrip world call trace].
  rewrite H. reflexivity.
Qed.



Lemma direction_in_has_session (c : Call) :
  direction c = dir_in -> exists current, locus c = Some current.
Proof.
  unfold direction. destruct (locus c) as [l|]; [eauto|discriminate].
Qed.


(** ** hangup, branch by branch *)

Lemma quiet_reject_media : quiet isMediaEnd reject.
Proof.
  unfold reject. apply quiet_oneFlight.
  apply quiet_bind; [apply quiet_this|]. intros c.
  destruct (Direction_eqb _ _); [apply quiet_ret|].
  repeat (first [ apply quiet_bind; [|intros ?] | apply quiet_emit; reflexivity
          | apply quiet_roundTrip; reflexivity | apply quiet_setLocus; reflexivity ]).
Qed.

(** X8. [hangup] on an incoming call that this device has not joined is
    [reject] and nothing more: the local media is never stopped and no leave
    request is sent. *)
Theorem hangup_unjoined_incoming_is_reject (w : World) (c : Call) :
  direction c = dir_in ->
  joinedOnThisDevice c = false ->
  hangup w c = reject w c /\
  existsb isMediaEnd (trace (hangup w c)) = false /\
  existsb isLeave (trace (hangup w c)) = false.
Proof.
  intros Hd Hj.
  assert (H : hangup w c = reject w c).
  { unfold hangup. apply hangup_delegates. rewrite Hd, Hj. reflexivity. }
  rewrite H. split; [reflexivity|]. split.
  - apply quiet_reject_media.
  - apply quiet_reject_leave.
Qed.


(** X10. [hangup] whose leave round trip fails: [locusLeaveInFlight], set
    before the request, is not cleared again, the call is not torn down, and
    the session is the one the call had. *)
Theorem hangup_failed_leave (w : World) (c : Call) (current : Locus)
  (e : string) (rs : list (Reply Locus)) :
  locus c = Some current ->
  Direction_eqb (direction c) dir_in && negb (joinedOnThisDevice c) = false ->
  existsb (String.eqb "_hangup") (inFlight c) = false ->
  session w = Rejects e :: rs ->
  locusLeaveInFlight (call (hangup w c)) = true /\
  existsb isTeardown (trace (hangup w c)) = false /\
  locus (call (hangup w c)) = Some current /\
  inFlight (call (hangup w c)) = inFlight c.
Proof.
  intros Hl Hd Hf Hs. unfold hangup.
  rewrite (hangup_with_session _ _ _ _ Hl Hd).
  unfold _hangup.
  rewrite oneFlight_first; try assumption;
    rewrite !bind_assign, !bind_this;
    rewrite !(bind_rejected _ _ _ _ e) by (eapply roundTrip_rejected; eassumption);
    cbn [traced outcome call world trace roundTrip]; [|discriminate].
  cbn [inFlight with_inFlight with_locusLeaveInFlight locusLeaveInFlight locus].
  rewrite (remove_head _ _ Hf). repeat split. exact Hl.
Qed.

(** X11. [hangup] on a call without a session whose [locusJoinInFlight] is
    set waits for the session.  While the reply to the join has not come the
    promise stays pending: the media is stopped, but no request is sent and
    nothing is torn down.  When the join lands with a session on which this
    device counts as a party (outgoing, or joined on this device), [hangup]
    runs again and sends the leave for the session that landed. *)
Theorem hangup_waits_for_join (w : World) (c : Call) :
  locus c = None -> locusJoinInFlight c = true ->
  (session w = [] ->
     outcome (hangup w c) = Pending /\
     existsb isSent (trace (hangup w c)) = false /\
     existsb isTeardown (trace (hangup w c)) = false /\
     existsb isMediaEnd (trace (hangup w c)) = true) /\
  (forall l rs,
     session w = Resolves l :: rs ->
     Direction_eqb (direction_of l) dir_in && negb (joinedOnThisDevice_of l)
       = false ->
     existsb (String.eqb "_hangup") (inFlight c) = false ->
     exists rest,
       trace (hangup w c) =
       [Log "call: hanging up"; MediaEnd;
        Log "call: no locus, waiting for rest call to complete before hanging up";
        WhenChangeLocus; Log "call: hanging up"; MediaEnd;
        Sent (ReqLeave (Some l))] ++ rest).
Proof.
  intros Hl Hf. split.
  - intros Hs. rewrite (hangup_no_session_flag w c Hl Hf Hs).
    repeat split.
  - intros l rs Hs Hd Hnf. unfold hangup. cbn [hangup_].
    set (again := hangup_body (settle Pending)).
    unfold hangup_body. rewrite bind_this.
    unfold direction at 1. rewrite Hl. cbn [Direction_eqb andb].
    rewrite !bind_emit, Hf, !bind_emit.
    assert (Hw : whenChangeLocus w c =
                 {| outcome := Resolved tt;
                    call := with_locusJoinInFlight false
                              (with_locus (Some l) c);
                    world := with_session rs w;
                    trace := [WhenChangeLocus] |}).
    { unfold whenChangeLocus, detached, _setLocus. rewrite Hs.
      cbn [session with_session _setLocus_on]. rewrite Hl.
      cbn [call world trace]. destruct w; reflexivity. }
    rewrite (bind_resolved _ _ _ _ tt) by (rewrite Hw; reflexivity).
    rewrite Hw. cbn [traced trace call world app].
    set (c2 := with_locusJoinInFlight false (with_locus (Some l) c)).
    change again with (hangup_ 1).
    assert (Hl2 : locus c2 = Some l) by reflexivity.
    assert (Hd2 : Direction_eqb (direction c2) dir_in &&
                  negb (joinedOnThisDevice c2) = false) by exact Hd.
    rewrite (hangup_with_session _ _ _ _ Hl2 Hd2).
    destruct (_hangup_starts (with_session rs w) c2 Hnf) as [[rest Hr] _].
    cbn [trace traced]. rewrite Hr. rewrite Hl2. exists rest. reflexivity.
Qed.

(** ** _join *)

Lemma bind_createOffer_resolved {B} (k : string -> P B) w c offer os :
  offers w = Resolves offer :: os ->
  bind createOffer k w c = traced CreateOffer (k offer (with_offers os w) c).
Proof.
  intros H. unfold bind. cbn [outcome createOffer world call trace].
  rewrite H. reflexivity.
Qed.

Lemma bind_detached {A B} (m : P A) (k : unit -> P B) w c :
  bind (detached m) k w c =
  after (trace (m (with_session [] w) c))
    (k tt w (call (m (with_session [] w) c))).
Proof. reflexivity. Qed.

Lemma quiet_detached p {A} (m : P A) : quiet p m -> quiet p (detached m).
Proof. intros H w c. apply H. Qed.

Lemma quiet_acceptAnswer p sdp :
  p (AcceptAnswer sdp) = false -> quiet p (acceptAnswer sdp).
Proof. intros H w c. cbn. now rewrite H. Qed.

Lemma quiet_join_media p options :
  (forall s, p (MediaSetStream s) = false) ->
  (forall a v ra rv, p (MediaSet a v ra rv) = false) ->
  quiet p (_join_media options).
Proof.
  intros H1 H2. unfold _join_media.
  destruct (o_localMediaStream options).
  - apply quiet_bind; [now apply quiet_emit|]. intros _. apply quiet_assign.
  - destruct (match o_constraints options with
              | Some cs => cs
              | None => (CTrue, CObject (Some defaultFacingMode))
              end) as [a v].
    apply quiet_bind.
    + destruct (isFacingMode _); [apply quiet_assign|apply quiet_ret].
    + intros _. apply quiet_bind; [now apply quiet_emit|]. intros _.
      apply quiet_assign.
Qed.

Lemma join_correlationId_silent target w c :
  outcome (_join_correlationId target w c) = Resolved tt /\
  world (_join_correlationId target w c) = w /\
  trace (_join_correlationId target w c) = [] /\
  locus (call (_join_correlationId target w c)) = locus c /\
  locusJoinInFlight (call (_join_correlationId target w c)) =
    locusJoinInFlight c /\
  media (call (_join_correlationId target w c)) = media c.
Proof.
  unfold _join_correlationId.
  destruct (negb (truthy_str (target_correlationId target))).
  - rewrite bind_assoc, bind_uuid, bind_assign, bind_this.
    destruct (negb _); repeat split; reflexivity.
  - rewrite bind_ret, bind_this.
    destruct (negb _); repeat split; reflexivity.
Qed.

(** The part of [_join] before the offer always runs through. *)
Lemma join_prepared method target options w c :
  _join method target options w c =
  after (trace (_join_media options w c))
    (_join_exchange method target w
       (call (_join_correlationId target w (call (_join_media options w c))))).
Proof.
  unfold _join.
  destruct (join_media_runs options w c) as (Ho & Hw & _).
  rewrite (bind_resolved _ _ _ _ tt Ho). rewrite Hw.
  destruct (join_correlationId_silent target w (call (_join_media options w c)))
    as (Ho2 & Hw2 & Ht2 & _).
  rewrite (bind_resolved _ _ _ _ tt Ho2). rewrite Hw2, Ht2.
  reflexivity.
Qed.

(** X12. When [media.createOffer] fails, [_join] rejects with its reason
    and nothing is sent to the session service; the call keeps no session
    and [locusJoinInFlight] is as it was. *)
Theorem join_offer_rejected method target options (w : World) (c : Call)
  (e : string) (os : list (Reply string)) :
  offers w = Rejects e :: os ->
  outcome (_join method target options w c) = Rejected e /\
  existsb isSent (trace (_join method target options w c)) = false /\
  locus (call (_join method target options w c)) = locus c /\
  locusJoinInFlight (call (_join method target options w c)) =
    locusJoinInFlight c.
Proof.
  intros Ho. rewrite join_prepared.
  destruct (join_media_runs options w c) as (_ & _ & _ & Hl & Hf & _).
  destruct (join_correlationId_silent target w (call (_join_media options w c)))
    as (_ & _ & _ & Hl2 & Hf2 & _).
  set (c2 := call (_join_correlationId target w _)) in *.
  assert (He : _join_exchange method target w c2 =
               {| outcome := Rejected e; call := c2;
                  world := with_offers os w; trace := [CreateOffer] |}).
  { unfold _join_exchange.
    rewrite (bind_rejected _ _ _ _ e)
      by (cbn [outcome createOffer]; rewrite Ho; reflexivity).
    cbn [createOffer call world trace]. rewrite Ho. reflexivity. }
  rewrite He. cbn [after outcome call world trace].
  rewrite existsb_app, Hl2, Hf2, Hl, Hf.
  rewrite (quiet_join_media isSent options) by reflexivity.
  repeat split.
Qed.

Lemma join_exchange_request method target w c offer os :
  offers w = Resolves offer :: os ->
  exists rest,
    trace (_join_exchange method target w c) =
      CreateOffer :: Sent (ReqJoin method target offer (correlationId c))
        :: rest /\
    existsb isJoinSent rest = false.
Proof.
  intros Ho. unfold _join_exchange.
  rewrite (bind_createOffer_resolved _ _ _ _ _ Ho), bind_this.
  cbn [traced trace].
  match goal with
  | |- context [bind (roundTrip ?req) ?k ?w1 ?c1] =>
      assert (Hk : forall l, quiet isJoinSent (k l));
      [ | set (cont := k) in * ]
  end.
  { intros l.
    apply quiet_bind; [apply quiet_detached, quiet_setLocus; reflexivity|].
    intros _. apply quiet_bind; [apply quiet_assign|]. intros _.
    apply quiet_bind; [apply quiet_this|]. intros c'.
    destruct (mediaConnection c') as [mc|]; [|apply quiet_settle].
    destruct (parseSdp (remoteSdp mc)); [|apply quiet_settle].
    apply quiet_acceptAnswer. reflexivity. }
  unfold bind. cbn [outcome roundTrip call world trace].
  destruct (settled_of (session (with_offers os w))) as [l| | | |];
    cbn [trace app]; eexists; (split; [reflexivity|]); try reflexivity.
  apply Hk.
Qed.

Lemma filter_quiet (p : Effect -> bool) (t : list Effect) :
  existsb p t = false -> filter p t = [].
Proof.
  induction t as [|x t IH]; [reflexivity|]. cbn [existsb filter].
  intros H. apply orb_false_iff in H as [Hx Ht]. rewrite Hx. now apply IH.
Qed.

Lemma join_requests method target options w c offer os :
  offers w = Resolves offer :: os ->
  filter isJoinSent (trace (_join method target options w c)) =
  [Sent (ReqJoin method target offer
           (correlationId
              (call (_join_correlationId target w
                       (call (_join_media options w c))))))].
Proof.
  intros Ho. rewrite join_prepared. cbn [after trace].
  rewrite filter_app.
  rewrite (filter_quiet isJoinSent (trace (_join_media options w c)))
    by (apply quiet_join_media; reflexivity).
  destruct (join_exchange_request method target w
              (call (_join_correlationId target w
                       (call (_join_media options w c)))) offer os Ho)
    as (rest & -> & Hq).
  cbn [app filter isJoinSent]. rewrite (filter_quiet _ _ Hq). reflexivity.
Qed.

(** X13. Once the offer is there, [_join] sends exactly one request to the
    session service method it was given, for the target it was given, with
    the offer and the call's correlation id: the fresh uuid when the target
    carries no correlation id, the call's own when both have one. *)
Theorem join_sends_one_request method target options (w : World) (c : Call)
  (offer : string) (os : list (Reply string)) :
  offers w = Resolves offer :: os ->
  (truthy_str (target_correlationId target) = false -> uuid w <> "" ->
     filter isJoinSent (trace (_join method target options w c)) =
     [Sent (ReqJoin method target offer (Some (uuid w)))]) /\
  (truthy_str (target_correlationId target) = true ->
   truthy_str (correlationId c) = true ->
     filter isJoinSent (trace (_join method target options w c)) =
     [Sent (ReqJoin method target offer (correlationId c))]).
Proof.
  intros Ho. rewrite (join_requests _ _ _ _ _ _ _ Ho).
  destruct (join_media_runs options w c) as (_ & _ & Hcorr & _).
  split.
  - intros Ht Hu. rewrite join_correlationId_fresh by assumption. reflexivity.
  - intros Ht Hc. rewrite join_correlationId_kept
      by (try assumption; rewrite Hcorr; assumption).
    cbn [ret call]. rewrite Hcorr. reflexivity.
Qed.

(** The run of [_join_exchange] on a call without a session, up to the
    look at the media connection, when offer and session arrive. *)
Lemma join_exchange_landed method target w c offer os l rs :
  locus c = None ->
  offers w = Resolves offer :: os ->
  session w = Resolves l :: rs ->
  _join_exchange method target w c =
  traced CreateOffer
    (traced (Sent (ReqJoin method target offer (correlationId c)))
       (match mediaConnection (with_locus (Some l) c) with
        | None => settle (Rejected "TypeError")
        | Some mc =>
            match parseSdp (remoteSdp mc) with
            | None => settle (Rejected "SyntaxError")
            | Some sdp => acceptAnswer sdp
            end
        end (with_session rs (with_offers os w))
          (with_locusJoinInFlight false (with_locus (Some l) c)))).
Proof.
  intros Hl Ho Hs. unfold _join_exchange.
  rewrite (bind_createOffer_resolved _ _ _ _ _ Ho), bind_this.
  assert (Hs1 : session (with_offers os w) = Resolves l :: rs) by exact Hs.
  rewrite (bind_roundTrip_resolved _ _ _ _ _ _ Hs1), bind_detached.
  assert (Hd : _setLocus l (with_session [] (with_session rs (with_offers os w))) c
               = {| outcome := Resolved tt; call := with_locus (Some l) c;
                    world := with_session [] (with_session rs (with_offers os w));
                    trace := [] |}).
  { unfold _setLocus. cbn [session with_session _setLocus_on]. rewrite Hl.
    reflexivity. }
  rewrite Hd. cbn [trace call]. rewrite bind_assign, bind_this.
  unfold after. cbn [app]. rewrite traced_eta. reflexivity.
Qed.

(** X14. A call without a session whose join lands on a session that has no
    media connection for this device, or whose remote description does not
    parse: [_join] stores the session and clears [locusJoinInFlight], then
    rejects; no answer is ever handed to the media adapter. *)
Theorem join_without_remote_description method target options (w : World)
  (c : Call) (offer : string) (os : list (Reply string)) (l : Locus)
  (rs : list (Reply Locus)) :
  locus c = None ->
  offers w = Resolves offer :: os ->
  session w = Resolves l :: rs ->
  (mediaConnection (with_locus (Some l) c) = None \/
   exists mc, mediaConnection (with_locus (Some l) c) = Some mc /\
              parseSdp (remoteSdp mc) = None) ->
  (exists e, outcome (_join method target options w c) = Rejected e) /\
  locus (call (_join method target options w c)) = Some l /\
  locusJoinInFlight (call (_join method target options w c)) = false /\
  existsb isAcceptAnswer (trace (_join method target options w c)) = false.
Proof.
  intros Hl Ho Hs Hmc. rewrite join_prepared.
  destruct (join_media_runs options w c) as (_ & _ & _ & Hl1 & _).
  destruct (join_correlationId_silent target w (call (_join_media options w c)))
    as (_ & _ & _ & Hl2 & _).
  set (c2 := call (_join_correlationId target w _)) in *.
  assert (Hl3 : locus c2 = None) by (rewrite Hl2, Hl1; exact Hl).
  rewrite (join_exchange_landed _ _ _ _ _ _ _ _ Hl3 Ho Hs).
  change (mediaConnection (with_locus (Some l) c2))
    with (mediaConnection (with_locus (Some l) c)).
  cbn [after traced outcome call world trace].
  rewrite existsb_app.
  rewrite (quiet_join_media isAcceptAnswer options) by reflexivity.
  destruct Hmc as [-> | (mc & -> & ->)]; cbn; repeat split; eauto.
Qed.

(** X15. A call without a session whose join lands on a session with a
    media connection for this device: the session is stored,
    [locusJoinInFlight] is cleared, and the last thing [_join] does is hand
    to the media adapter the [sdp] parsed from the remote description of
    that connection; [_join] settles as [media.acceptAnswer] does. *)
Theorem join_lands method target options (w : World) (c : Call)
  (offer : string) (os : list (Reply string)) (l : Locus)
  (rs : list (Reply Locus)) (mc : MediaConnection) (sdp : string) :
  locus c = None ->
  offers w = Resolves offer :: os ->
  session w = Resolves l :: rs ->
  mediaConnection (with_locus (Some l) c) = Some mc ->
  parseSdp (remoteSdp mc) = Some sdp ->
  outcome (_join method target options w c) = settled_of (answers w) /\
  locus (call (_join method target options w c)) = Some l /\
  locusJoinInFlight (call (_join method target options w c)) = false /\
  session (world (_join method target options w c)) = rs /\
  exists pre, trace (_join method target options w c) =
              pre ++ [AcceptAnswer sdp] /\
              existsb isAcceptAnswer pre = false.
Proof.
  intros Hl Ho Hs Hmc Hp. rewrite join_prepared.
  destruct (join_media_runs options w c) as (_ & _ & _ & Hl1 & _).
  destruct (join_correlationId_silent target w (call (_join_media options w c)))
    as (_ & _ & _ & Hl2 & _).
  set (c2 := call (_join_correlationId target w _)) in *.
  assert (Hl3 : locus c2 = None) by (rewrite Hl2, Hl1; exact Hl).
  rewrite (join_exchange_landed _ _ _ _ _ _ _ _ Hl3 Ho Hs).
  change (mediaConnection (with_locus (Some l) c2))
    with (mediaConnection (with_locus (Some l) c)).
  rewrite Hmc, Hp.
  cbn [after traced outcome call world trace acceptAnswer session
       with_session with_answers answers with_offers locus
       with_locusJoinInFlight locusJoinInFlight with_locus].
  repeat split.
  exists (trace (_join_media options w c) ++
          [CreateOffer; Sent (ReqJoin method target offer (correlationId c2))]).
  split.
  - rewrite <- app_assoc. reflexivity.
  - rewrite existsb_app.
    rewrite (quiet_join_media isAcceptAnswer options) by reflexivity.
    reflexivity.
Qed.

(** X16. What [_join] sets on the media adapter when no stream is given.
    Without constraints: audio, video facing the phone's default side, and
    both directions received.  With constraints that ask for neither audio
    nor video and no offer options: a receive-only call, both directions
    received.  With constraints that ask for something and no offer options:
    exactly the media that is sent is received.  With a stream given, the
    audio, video and receive settings are left alone. *)
Theorem join_media_receive_defaults (options : Options) (w : World) (c : Call) :
  (o_localMediaStream options = None -> o_constraints options = None ->
   o_offerToReceiveAudio options = None ->
   o_offerToReceiveVideo options = None ->
     media (call (_join_media options w c)) =
     media_set CTrue (CObject (Some defaultFacingMode)) true true (media c)) /\
  (forall a v,
     o_localMediaStream options = None ->
     o_constraints options = Some (a, v) ->
     o_offerToReceiveAudio options = None ->
     o_offerToReceiveVideo options = None ->
     (truthy a = false -> truthy v = false ->
        offerToReceiveAudio (media (call (_join_media options w c))) = true /\
        offerToReceiveVideo (media (call (_join_media options w c))) = true) /\
     (truthy a = true \/ truthy v = true ->
        offerToReceiveAudio (media (call (_join_media options w c))) = truthy a /\
        offerToReceiveVideo (media (call (_join_media options w c))) = truthy v)) /\
  (forall s, o_localMediaStream options = Some s ->
     audio (media (call (_join_media options w c))) = audio (media c) /\
     video (media (call (_join_media options w c))) = video (media c) /\
     offerToReceiveAudio (media (call (_join_media options w c))) =
       offerToReceiveAudio (media c) /\
     offerToReceiveVideo (media (call (_join_media options w c))) =
       offerToReceiveVideo (media c) /\
     m_localMediaStream (media (call (_join_media options w c))) = Some s).
Proof.
  unfold _join_media. split; [|split].
  - intros -> -> -> ->.
    destruct (isFacingMode (Some defaultFacingMode));
      rewrite ?bind_assign, ?bind_ret, bind_emit; reflexivity.
  - intros a v -> -> -> ->. 
    assert (Hm : forall c', media (call
              (bind (if isFacingMode match v with CObject m => m | _ => None end
                     then assign (with_facingMode
                                    match v with CObject m => m | _ => None end)
                     else ret tt)
                 (fun _ => bind (emit (MediaSet a v
                    (negb (truthy a) && negb (truthy v) || truthy a)
                    (negb (truthy a) && negb (truthy v) || truthy v)))
                    (fun _ => assign (fun c0 => with_media
                       (media_set a v
                          (negb (truthy a) && negb (truthy v) || truthy a)
                          (negb (truthy a) && negb (truthy v) || truthy v)
                          (media c0)) c0))) w c')) =
            media_set a v (negb (truthy a) && negb (truthy v) || truthy a)
              (negb (truthy a) && negb (truthy v) || truthy v) (media c')).
    { intros c'. destruct (isFacingMode _);
        rewrite ?bind_assign, ?bind_ret, bind_emit; reflexivity. }
    cbv zeta. rewrite Hm. cbn [media_set offerToReceiveAudio offerToReceiveVideo].
    split.
    + intros -> ->. split; reflexivity.
    + intros [H|H]; rewrite H; destruct (truthy a), (truthy v);
        split; reflexivity.
  - intros s ->. rewrite bind_emit. repeat split.
Qed.

(** ** answer *)

(** X17. [answer] on an outgoing call, or on a call that this device has
    joined and that has a live peer connection, resolves without sending
    anything: the call and the pending replies are untouched. *)
Theorem answer_exempt (options : Options) (w : World) (c : Call) (l : Locus) :
  locus c = Some l ->
  direction c = dir_out \/
  (joinedOnThisDevice c = true /\ peer (media c) = true) ->
  outcome (answer options w c) = Resolved tt /\
  call (answer options w c) = c /\
  world (answer options w c) = w /\
  existsb isSent (trace (answer options w c)) = false /\
  existsb isJoinSent (trace (answer options w c)) = false.
Proof.
  intros Hl H. unfold answer. rewrite bind_emit, bind_this, Hl.
  destruct (Direction_eqb (direction c) dir_out) eqn:Hd.
  - repeat split.
  - destruct H as [H|[Hj Hp]].
    + rewrite H in Hd. discriminate.
    + rewrite Hj, Hp. cbn [andb]. rewrite bind_emit. repeat split.
Qed.

(** X18. [answer] on an incoming call that is not yet joined with a live
    peer connection joins the current session: once the offer is there,
    exactly one request is sent, a join of that session carrying the offer
    and, the session document having no correlation id of its own, a fresh
    uuid. *)
Theorem answer_joins (options : Options) (w : World) (c : Call) (l : Locus)
  (offer : string) (os : list (Reply string)) :
  locus c = Some l ->
  direction c = dir_in ->
  joinedOnThisDevice c && peer (media c) = false ->
  truthy_str (l_correlationId l) = false ->
  uuid w <> "" ->
  offers w = Resolves offer :: os ->
  filter isJoinSent (trace (answer options w c)) =
  [Sent (ReqJoin "join" (Session l) offer (Some (uuid w)))].
Proof.
  intros Hl Hd Hj Ht Hu Ho. unfold answer.
  rewrite bind_emit, bind_this, Hl, Hd, Hj. cbn [Direction_eqb traced trace].
  cbn [filter isJoinSent].
  pose proof (join_requests "join" (Session l) options w c offer os Ho) as Hr.
  rewrite join_correlationId_fresh in Hr by assumption.
  cbn [ret call correlationId with_correlationId] in Hr.
  unfold bind.
  destruct (outcome (_join "join" (Session l) options w c));
    cbn [trace emit]; rewrite ?filter_app, Hr; reflexivity.
Qed.

(** ** hangup on a call that was never created *)

(** X19. [hangup] on a call without a session whose [locusJoinInFlight] is
    not set stops the media and detaches the listeners on the spot: it
    resolves, sends nothing to the session service, and leaves the call and
    the pending replies as they were. *)
Theorem hangup_never_created (w : World) (c : Call) :
  locus c = None -> locusJoinInFlight c = false ->
  outcome (hangup w c) = Resolved tt /\
  call (hangup w c) = c /\ world (hangup w c) = w /\
  existsb isSent (trace (hangup w c)) = false /\
  filter (fun e => isMediaEnd e || isTeardown e) (trace (hangup w c)) =
    [MediaEnd; StopListening; Off].
Proof.
  intros Hl Hf. rewrite (hangup_no_session_no_flag w c Hl Hf). repeat split.
Qed.

(** ** The join flag *)

(** X20. [_join] only ever clears [locusJoinInFlight]: the flag is set
    after [_join] only if it was set before, and it is clear once the reply
    of the session service has landed. *)
Theorem join_only_clears_flag method target options (w : World) (c : Call) :
  (locusJoinInFlight (call (_join method target options w c)) = true ->
   locusJoinInFlight c = true) /\
  (forall offer os l rs,
     offers w = Resolves offer :: os -> session w = Resolves l :: rs ->
     locusJoinInFlight (call (_join method target options w c)) = false).
Proof.
  split; [apply join_never_sets_flag|].
  intros offer os l rs Ho Hs. rewrite join_prepared. cbn [after call].
  set (c2 := call (_join_correlationId target w _)).
  unfold _join_exchange.
  rewrite (bind_createOffer_resolved _ _ _ _ _ Ho), bind_this.
  assert (Hs1 : session (with_offers os w) = Resolves l :: rs) by exact Hs.
  rewrite (bind_roundTrip_resolved _ _ _ _ _ _ Hs1), bind_detached.
  rewrite bind_assign, bind_this. cbn [after traced call].
  set (c4 := with_locusJoinInFlight false _).
  destruct (mediaConnection c4) as [mc|]; [|reflexivity].
  destruct (parseSdp (remoteSdp mc)); reflexivity.
Qed.

(** ** toggleFacingMode, past its guards *)

Lemma toggle_passes_guards (w : World) (c : Call) (m : string) :
  truthy (videoConstraint (media c)) = true ->
  facingMode c = Some m -> m = "user" \/ m = "environment" ->
  let opposite := if m =? "user" then "environment" else "user" in
  let c1 := match videoConstraint (media c) with
            | CObject _ =>
                with_media (media_set_videoConstraint
                              (CObject (Some opposite)) (media c)) c
            | _ => c
            end in
  toggleFacingMode w c =
  traced (CreateLocalMediaStream (audioConstraint (media c))
            (CObject (Some opposite)))
    (match streams w with
     | [] => {| outcome := Pending; call := c1;
                world := with_streams [] w; trace := [] |}
     | Rejects e :: ss => {| outcome := Rejected e; call := c1;
                             world := with_streams ss w; trace := [] |}
     | Resolves s :: ss =>
         {| outcome := if answeraccepted w then Resolved tt else Pending;
            call := if answeraccepted w
                    then with_facingMode (Some opposite)
                           (with_localMediaStream (Some s) c1)
                    else with_localMediaStream (Some s) c1;
            world := with_streams ss w;
            trace := [OnceAnswerAccepted] |}
     end).
Proof.
  intros Hv Hf Hm. cbv zeta. unfold toggleFacingMode. rewrite bind_this.
  cbv zeta. rewrite Hv, Hf. cbn [negb].
  assert (Hi : isFacingMode (Some m) = true).
  { destruct Hm as [-> | ->]; reflexivity. }
  rewrite Hi. cbn [negb].
  set (opposite := if m =? "user" then "environment" else "user").
  assert (Hstep : forall (k : unit -> P unit),
            bind (match videoConstraint (media c) with
                  | CObject _ =>
                      assign (fun c0 => with_media
                                (media_set_videoConstraint
                                   (CObject (Some opposite)) (media c0)) c0)
                  | _ => ret tt
                  end) k w c =
            k tt w match videoConstraint (media c) with
                   | CObject _ =>
                       with_media (media_set_videoConstraint
                                     (CObject (Some opposite)) (media c)) c
                   | _ => c
                   end).
  { intros k. destruct (videoConstraint (media c));
      rewrite ?bind_assign, ?bind_ret; reflexivity. }
  rewrite Hstep, bind_emit. f_equal.
  unfold bind at 1. cbn [outcome call world trace].
  destruct (streams w) as [|[s|e] ss]; cbn [settled_of tl app]; try reflexivity.
  rewrite bind_emit, bind_assign. unfold bind.
  cbn [outcome call world trace traced assign app answeraccepted with_streams].
  destruct (answeraccepted w); reflexivity.
Qed.


(** X22. When the request for the new stream fails, [toggleFacingMode]
    rejects with its reason and neither the local stream nor the recorded
    facing mode changes. *)
Theorem toggleFacingMode_stream_rejected (w : World) (c : Call)
  (m e : string) (ss : list (Reply string)) :
  truthy (videoConstraint (media c)) = true ->
  facingMode c = Some m -> m = "user" \/ m = "environment" ->
  streams w = Rejects e :: ss ->
  outcome (toggleFacingMode w c) = Rejected e /\
  localMediaStream (call (toggleFacingMode w c)) = localMediaStream c /\
  facingMode (call (toggleFacingMode w c)) = facingMode c.
Proof.
  intros Hv Hf Hm Hs. rewrite (toggle_passes_guards w c m Hv Hf Hm).
  cbv zeta. rewrite Hs. cbn [traced trace outcome call].
  destruct (videoConstraint (media c)); repeat split.
Qed.

(** X23. Toggling twice, each toggle completing, brings the recorded facing
    mode back to where it was. *)
Theorem toggleFacingMode_twice (w w' : World) (c : Call) (m s s' : string)
  (ss ss' : list (Reply string)) :
  truthy (videoConstraint (media c)) = true ->
  facingMode c = Some m -> m = "user" \/ m = "environment" ->
  streams w = Resolves s :: ss -> answeraccepted w = true ->
  streams w' = Resolves s' :: ss' -> answeraccepted w' = true ->
  outcome (toggleFacingMode w' (call (toggleFacingMode w c))) = Resolved tt /\
  facingMode (call (toggleFacingMode w' (call (toggleFacingMode w c)))) =
    Some m /\
  localMediaStream (call (toggleFacingMode w' (call (toggleFacingMode w c)))) =
    Some s'.
Proof.
  intros Hv Hf Hm Hs Ha Hs' Ha'.
  rewrite (toggle_passes_guards w c m Hv Hf Hm).
  cbv zeta. rewrite Hs, Ha. cbn [traced call].
  set (c2 := with_facingMode _ _).
  assert (Hv2 : truthy (videoConstraint (media c2)) = true).
  { unfold c2. destruct (videoConstraint (media c)) eqn:E; cbn;
      rewrite ?E; try reflexivity; cbn in Hv; discriminate. }
  assert (Hf2 : facingMode c2 =
                Some (if m =? "user" then "environment" else "user"))
    by reflexivity.
  assert (Hm2 : (if m =? "user" then "environment" else "user") = "user" \/
                (if m =? "user" then "environment" else "user") = "environment").
  { destruct Hm as [-> | ->]; cbn; auto. }
  rewrite (toggle_passes_guards w' c2 _ Hv2 Hf2 Hm2).
  cbv zeta. rewrite Hs', Ha'. cbn [traced outcome call].
  split; [reflexivity|]. split.
  - cbn [facingMode with_facingMode]. destruct Hm as [-> | ->]; reflexivity.
  - reflexivity.
Qed.

(** ** Session events *)

(** X24. [_onLocusEvent] ignores an event that is not about this call:
    when the event's session has another url than the call's session (or
    the call has none) and the call has no correlation id, or has one that
    differs from the one in this device's record of the event, nothing is
    logged, compared or stored. *)
Theorem onLocusEvent_ignores_other_calls (event : LocusEvent) (w : World)
  (c : Call) (s : Participant) :
  self (e_locus event) = Some s ->
  match locus c with
  | Some l => url (e_locus event) =? url l
  | None => false
  end = false ->
  truthy_str (correlationId c) = false \/
  (exists d, find (fun item => d_url item =? deviceUrl) (devices s) = Some d /\
             option_string_eqb (correlationId c) (d_correlationId d) = false) ->
  _onLocusEvent event w c =
  {| outcome := Resolved tt; call := c; world := w; trace := [] |}.
Proof.
  intros Hs Hu H. unfold _onLocusEvent. rewrite bind_this, Hs. cbv zeta.
  rewrite Hu. destruct (truthy_str (correlationId c)) eqn:Ht.
  - destruct H as [H|(d & -> & ->)]; [discriminate|reflexivity].
  - reflexivity.
Qed.

Lemma onLocusEvent_adopt_run (event : LocusEvent) (w : World) (c : Call) :
  (bind (emit (Log ("locus event: " ++ eventType event)))
     (fun _ => detached (_setLocus (e_locus event)))) w c =
  {| outcome := Resolved tt;
     call := call (_setLocus (e_locus event) (with_session [] w) c);
     world := w;
     trace := Log ("locus event: " ++ eventType event)
              :: trace (_setLocus (e_locus event) (with_session [] w) c) |}.
Proof. reflexivity. Qed.

(** X25. [_onLocusEvent] reconciles an event about this call, found either
    by the url of the call's session or, on a call with a correlation id, by
    that id in this device's record of the event: it logs the event type and
    hands the event's session to [_setLocus] without waiting for it.  A call
    that has dialled and has no session yet takes the event's session as its
    session. *)
Theorem onLocusEvent_reconciles (event : LocusEvent) (w : World) (c : Call)
  (s : Participant) :
  self (e_locus event) = Some s ->
  (exists l, locus c = Some l /\ url (e_locus event) = url l) \/
  (truthy_str (correlationId c) = true /\
   exists d, find (fun item => d_url item =? deviceUrl) (devices s) = Some d /\
             d_correlationId d = correlationId c) ->
  outcome (_onLocusEvent event w c) = Resolved tt /\
  world (_onLocusEvent event w c) = w /\
  call (_onLocusEvent event w c) =
    call (_setLocus (e_locus event) (with_session [] w) c) /\
  trace (_onLocusEvent event w c) =
    Log ("locus event: " ++ eventType event)
      :: trace (_setLocus (e_locus event) (with_session [] w) c) /\
  (locus c = None -> locus (call (_onLocusEvent event w c)) =
                     Some (e_locus event)).
Proof.
  intros Hs H.
  assert (E : _onLocusEvent event w c =
              {| outcome := Resolved tt;
                 call := call (_setLocus (e_locus event) (with_session [] w) c);
                 world := w;
                 trace := Log ("locus event: " ++ eventType event)
                          :: trace (_setLocus (e_locus event)
                                      (with_session [] w) c) |}).
  { unfold _onLocusEvent. rewrite bind_this, Hs. cbv zeta.
    destruct H as [(l & Hl & Hu)|(Ht & d & Hd & Hc)].
    - rewrite Hl, Hu, String.eqb_refl. apply onLocusEvent_adopt_run.
    - destruct (match locus c with
                | Some l => url (e_locus event) =? url l
                | None => false
                end); [apply onLocusEvent_adopt_run|].
      rewrite Ht, Hd, Hc.
      assert (Hr : option_string_eqb (correlationId c) (correlationId c) = true).
      { destruct (correlationId c) as [k|]; [apply String.eqb_refl|reflexivity]. }
      rewrite Hr. apply onLocusEvent_adopt_run. }
  rewrite E. cbn [outcome call world trace]. repeat split.
  intros Hl. unfold _setLocus. cbn [session with_session _setLocus_on].
  rewrite Hl. reflexivity.
Qed.

(** X26. [_onLocusEvent] throws, leaving the call as it is, on an event
    whose session has no [self], and on an event for another session url
    that has no record of this device while the call has a correlation
    id. *)
Theorem onLocusEvent_throws (event : LocusEvent) (w : World) (c : Call) :
  self (e_locus event) = None \/
  (exists s, self (e_locus event) = Some s /\
     match locus c with
     | Some l => url (e_locus event) =? url l
     | None => false
     end = false /\
     truthy_str (correlationId c) = true /\
     find (fun item => d_url item =? deviceUrl) (devices s) = None) ->
  (exists e, outcome (_onLocusEvent event w c) = Thrown e) /\
  call (_onLocusEvent event w c) = c /\
  trace (_onLocusEvent event w c) = [].
Proof.
  intros H. unfold _onLocusEvent. rewrite bind_this. cbv zeta.
  destruct H as [-> | (s & -> & -> & -> & ->)];
    (split; [eexists; reflexivity | split; reflexivity]).
Qed.

End CallModel.

(** * The statements at work on concrete calls *)

Lemma status_ordered_rule_witness :
  status_fn true (Some (participant "me" "LEFT" []))
    (Some (participant "you" "JOINED" [])) = connected.
Proof.
  exact (proj1 (status_ordered_rule true
                  (Some (participant "me" "LEFT" []))
                  (Some (participant "you" "JOINED" [])))
               (participant "you" "JOINED" []) eq_refl eq_refl eq_refl).
Defined.

Lemma setLocus_first_snapshot_witness :
  locus (call (_setLocus refetchDeltas "device:1" (sessionOf "delta" None)
                 silentWorld freshCall)) = Some (sessionOf "delta" None) /\
  trace (_setLocus refetchDeltas "device:1" (sessionOf "delta" None)
           silentWorld freshCall) = [].
Proof.
  destruct (setLocus_first_snapshot refetchDeltas "device:1" silentWorld
              freshCall (sessionOf "delta" None) eq_refl)
    as (_ & Hl & _ & Ht & _).
  exact (conj Hl Ht).
Defined.

Lemma hangup_stops_media_first_witness :
  outcome (hangup outbound joinedHere alwaysIncoming "device:1"
             (replying [Rejects "503"])
             (joinedCall (sessionOf "s" None) None)) = Rejected "503" /\
  trace (hangup outbound joinedHere alwaysIncoming "device:1"
           (replying [Rejects "503"])
           (joinedCall (sessionOf "s" None) None)) =
  [Log "call: hanging up"; MediaEnd;
   Sent (ReqLeave (Some (sessionOf "s" None)))].
Proof.
  destruct (hangup_stops_media_first outbound joinedHere alwaysIncoming
              "device:1" (replying [Rejects "503"])
              (joinedCall (sessionOf "s" None) None) (sessionOf "s" None)
              eq_refl) as [_ H].
  destruct (H eq_refl eq_refl) as [_ H2].
  exact (H2 "503" [] eq_refl).
Defined.

Lemma setLocus_refetch_until_accepted_witness :
  outcome (_setLocus refetchDeltas "device:1" (sessionOf "delta" None)
             (replying [Resolves (sessionOf "delta" None);
                        Resolves (sessionOf "delta" None);
                        Resolves (sessionOf "full" None)])
             (joinedCall (sessionOf "s" None) None)) = Resolved tt /\
  fetches (trace (_setLocus refetchDeltas "device:1" (sessionOf "delta" None)
             (replying [Resolves (sessionOf "delta" None);
                        Resolves (sessionOf "delta" None);
                        Resolves (sessionOf "full" None)])
             (joinedCall (sessionOf "s" None) None))) = 3.
Proof.
  destruct (setLocus_refetch_until_accepted refetchDeltas "device:1"
              (replying [Resolves (sessionOf "delta" None);
                         Resolves (sessionOf "delta" None);
                         Resolves (sessionOf "full" None)])
              (joinedCall (sessionOf "s" None) None)
              (sessionOf "s" None) (sessionOf "delta" None)
              (sessionOf "full" None)
              [sessionOf "delta" None; sessionOf "delta" None] [])
    as (Ho & Hf & _);
    [reflexivity | reflexivity | repeat constructor | discriminate
    | reflexivity | ].
  exact (conj Ho Hf).
Defined.

Lemma toggleFacingMode_invalid_witness :
  call (toggleFacingMode silentWorld freshCall) = freshCall /\
  trace (toggleFacingMode silentWorld freshCall) = [].
Proof.
  destruct (toggleFacingMode_invalid silentWorld freshCall
              (or_introl eq_refl)) as (_ & Hc & _ & Ht).
  exact (conj Hc Ht).
Defined.

Lemma answer_without_session_witness :
  trace (answer inbound joinedHere alwaysIncoming "device:1" "user" noSdp
           noOptions silentWorld freshCall) = [Log "call: answering"].
Proof.
  exact (proj2 (proj2 (proj2
           (answer_without_session inbound joinedHere alwaysIncoming
              "device:1" "user" noSdp noOptions silentWorld freshCall
              eq_refl)))).
Defined.

Lemma setLocus_twice_witness :
  call (_setLocus alwaysIncoming "device:1"
          (sessionOf "s2" (Some (participant "me" "JOINED"
                                   [thisDevice (Some "corr-B")])))
          (world (_setLocus alwaysIncoming "device:1"
                    (sessionOf "s2" (Some (participant "me" "JOINED"
                                             [thisDevice (Some "corr-B")])))
                    silentWorld
                    (joinedCall (sessionOf "s1" None) (Some "corr-A"))))
          (call (_setLocus alwaysIncoming "device:1"
                   (sessionOf "s2" (Some (participant "me" "JOINED"
                                            [thisDevice (Some "corr-B")])))
                   silentWorld
                   (joinedCall (sessionOf "s1" None) (Some "corr-A"))))) =
  call (_setLocus alwaysIncoming "device:1"
          (sessionOf "s2" (Some (participant "me" "JOINED"
                                   [thisDevice (Some "corr-B")])))
          silentWorld (joinedCall (sessionOf "s1" None) (Some "corr-A"))).
Proof.
  destruct (setLocus_twice alwaysIncoming "device:1" silentWorld
              (joinedCall (sessionOf "s1" None) (Some "corr-A"))
              (sessionOf "s1" None)
              (sessionOf "s2" (Some (participant "me" "JOINED"
                                       [thisDevice (Some "corr-B")]))))
    as (_ & Hc & _); [reflexivity | discriminate | discriminate | ].
  exact Hc.
Defined.

Lemma correlationId_reassigned_witness :
  correlationId
    (call (_join_correlationId (Session (sessionOf "s1" None)) silentWorld
             (joinedCall (sessionOf "s1" None) (Some "corr-A")))) =
  Some "uuid-1".
Proof.
  destruct (correlationId_reassigned alwaysIncoming "device:1") as [H _].
  destruct (H (Session (sessionOf "s1" None)) silentWorld
              (joinedCall (sessionOf "s1" None) (Some "corr-A")))
    as (Hfresh & _).
  apply Hfresh; [reflexivity | discriminate].
Defined.

Lemma fetchExpectedLocus_checked_witness :
  1 <= fetches (trace (_fetchExpectedLocus
                         (replying [Rejects "503"; Rejects "503";
                                    Rejects "503"; Rejects "503"])
                         freshCall)) <= 3.
Proof.
  destruct (fetchExpectedLocus_checked
              (replying [Rejects "503"; Rejects "503"; Rejects "503";
                         Rejects "503"]) freshCall)
    as (_ & _ & _ & _ & H & _).
  exact H.
Defined.

(** ** Where the code departs from the specification *)

(** C5, counterexample to write-once: a call joined with correlation id
    corr-A adopts a snapshot whose record of this device carries corr-B, and
    its correlation id is corr-B afterwards. *)
Lemma correlationId_overwritten_on_adoption :
  correlationId (joinedCall (sessionOf "s1" None) (Some "corr-A")) =
    Some "corr-A" /\
  correlationId
    (call (_setLocus alwaysIncoming "device:1"
             (sessionOf "s2" (Some (participant "me" "JOINED"
                                      [thisDevice (Some "corr-B")])))
             silentWorld
             (joinedCall (sessionOf "s1" None) (Some "corr-A")))) =
    Some "corr-B".
Proof. split; reflexivity. Qed.

(** C9, counterexample to idempotence: with a comparator that asks for the
    full session whenever it is handed a delta, reconciling the same delta
    twice fetches twice; the service has moved on in between, and the second
    reconciliation replaces the session the first one stored. *)
Lemma setLocus_twice_refetches :
  locus (call (_setLocus refetchDeltas "device:1" (sessionOf "delta" None)
                 (replying [Resolves (sessionOf "full-1" None);
                            Resolves (sessionOf "full-2" None)])
                 (joinedCall (sessionOf "s" None) None))) =
    Some (sessionOf "full-1" None) /\
  locus (call (_setLocus refetchDeltas "device:1" (sessionOf "delta" None)
                 (world (_setLocus refetchDeltas "device:1"
                           (sessionOf "delta" None)
                           (replying [Resolves (sessionOf "full-1" None);
                                      Resolves (sessionOf "full-2" None)])
                           (joinedCall (sessionOf "s" None) None)))
                 (call (_setLocus refetchDeltas "device:1"
                          (sessionOf "delta" None)
                          (replying [Resolves (sessionOf "full-1" None);
                                     Resolves (sessionOf "full-2" None)])
                          (joinedCall (sessionOf "s" None) None))))) =
    Some (sessionOf "full-2" None) /\
  fetches (trace (_setLocus refetchDeltas "device:1" (sessionOf "delta" None)
                 (world (_setLocus refetchDeltas "device:1"
                           (sessionOf "delta" None)
                           (replying [Resolves (sessionOf "full-1" None);
                                      Resolves (sessionOf "full-2" None)])
                           (joinedCall (sessionOf "s" None) None)))
                 (call (_setLocus refetchDeltas "device:1"
                          (sessionOf "delta" None)
                          (replying [Resolves (sessionOf "full-1" None);
                                     Resolves (sessionOf "full-2" None)])
                          (joinedCall (sessionOf "s" None) None))))) = 1.
Proof. repeat split; reflexivity. Qed.

(** C7, counterexample to equality of the strings: the service reports
    SENDRECV in upper case; the poll returns that snapshot although the
    reported string is not the expected string sendrecv. *)
Lemma fetchExpectedLocus_accepts_upper_case :
  outcome (_fetchExpectedLocus
             (replying [Resolves (sessionOf "s" (Some (participant "me"
                                                        "JOINED" [])))])
             (with_media sendingAll freshCall)) =
    Resolved (sessionOf "s" (Some (participant "me" "JOINED" []))) /\
  audioStatus (p_status (participant "me" "JOINED" [])) = "SENDRECV" /\
  boolToStatus (truthy (audio sendingAll)) (offerToReceiveAudio sendingAll) =
    Some "sendrecv" /\
  ("SENDRECV" =? "sendrecv") = false.
Proof. repeat split; reflexivity. Qed.

(** C4. The failing run.  A fresh call dials: [_join] has sent its create
    request and the session service has not answered, so the join round
    trip is outstanding and the call has no session.  [locusJoinInFlight] is
    still unset, since no statement of call.js sets it, and [hangup] tears
    the call down at once instead of waiting for the session. *)
Theorem hangup_during_join_tears_down :
  let w := with_offers [Resolves "offer-sdp"] silentWorld in
  let dialling :=
    _join alwaysIncoming "device:1" "user" noSdp "create"
      (Invitee "bob@example.com") noOptions w freshCall in
  outcome dialling = Pending /\
  trace dialling =
    [MediaSet CTrue (CObject (Some "user")) true true; CreateOffer;
     Sent (ReqJoin "create" (Invitee "bob@example.com") "offer-sdp"
             (Some "uuid-1"))] /\
  locus (call dialling) = None /\
  locusJoinInFlight (call dialling) = false /\
  outcome (hangup outbound joinedHere alwaysIncoming "device:1"
             (world dialling) (call dialling)) = Resolved tt /\
  trace (hangup outbound joinedHere alwaysIncoming "device:1"
           (world dialling) (call dialling)) =
    [Log "call: hanging up"; MediaEnd; StopListening; Off;
     Log "call: hang up complete, call never created"].
Proof. vm_compute. repeat split; reflexivity. Qed.

(** * The further properties at work on concrete calls *)

Lemma status_only_if_witness :
  exists l r,
    Some (participant "me" "DECLINED" []) = Some l /\
    Some (participant "you" "NOTIFIED" []) = Some r /\
    state r = "NOTIFIED" /\ state r <> "LEFT" /\ state l <> "LEFT" /\
    state r <> "DECLINED".
Proof.
  exact (proj2 (proj2 (status_only_if false
                         (Some (participant "me" "DECLINED" []))
                         (Some (participant "you" "NOTIFIED" []))))
               eq_refl).
Defined.

Lemma boolToStatus_one_to_one_witness :
  true = true /\ false = false /\ boolToStatus true false <> None.
Proof. exact (boolToStatus_one_to_one true false true false eq_refl). Defined.

Lemma setLocus_fetch_rejected_witness :
  outcome (_setLocus refetchDeltas "device:1" (sessionOf "delta" None)
             (replying [Resolves (sessionOf "delta" None); Rejects "503"])
             (joinedCall (sessionOf "s" None) None)) = Rejected "503" /\
  call (_setLocus refetchDeltas "device:1" (sessionOf "delta" None)
          (replying [Resolves (sessionOf "delta" None); Rejects "503"])
          (joinedCall (sessionOf "s" None) None)) =
    joinedCall (sessionOf "s" None) None.
Proof.
  destruct (setLocus_fetch_rejected refetchDeltas "device:1"
              (replying [Resolves (sessionOf "delta" None); Rejects "503"])
              (joinedCall (sessionOf "s" None) None)
              (sessionOf "s" None) (sessionOf "delta" None)
              [sessionOf "delta" None] "503" [])
    as (Ho & Hc & _);
    [reflexivity | reflexivity | repeat constructor | reflexivity | ].
  exact (conj Ho Hc).
Defined.

Lemma reject_outbound_noop_witness :
  trace (reject inbound alwaysIncoming "device:1" silentWorld freshCall) = [].
Proof.
  destruct (reject_outbound_noop inbound alwaysIncoming "device:1"
              silentWorld freshCall eq_refl) as (_ & _ & Ht & _).
  exact Ht.
Defined.

Lemma reject_failed_decline_witness :
  outcome (reject inbound alwaysIncoming "device:1" (replying [Rejects "503"])
             (joinedCall (sessionOf "s" None) None)) = Rejected "503".
Proof.
  destruct (reject_failed_decline inbound alwaysIncoming "device:1"
              (replying [Rejects "503"])
              (joinedCall (sessionOf "s" None) None) "503" []
              eq_refl eq_refl eq_refl) as (Ho & _).
  exact Ho.
Defined.


Lemma hangup_unjoined_incoming_is_reject_witness :
  existsb isMediaEnd
    (trace (hangup inbound notJoinedHere alwaysIncoming "device:1"
              (replying [Resolves (sessionOf "s2" None)])
              (joinedCall (sessionOf "s" None) None))) = false.
Proof.
  destruct (hangup_unjoined_incoming_is_reject inbound notJoinedHere
              alwaysIncoming "device:1"
              (replying [Resolves (sessionOf "s2" None)])
              (joinedCall (sessionOf "s" None) None) eq_refl eq_refl)
    as (_ & Hm & _).
  exact Hm.
Defined.


Lemma hangup_failed_leave_witness :
  locusLeaveInFlight
    (call (hangup outbound joinedHere alwaysIncoming "device:1"
             (replying [Rejects "503"])
             (joinedCall (sessionOf "s" None) None))) = true.
Proof.
  destruct (hangup_failed_leave outbound joinedHere alwaysIncoming "device:1"
              (replying [Rejects "503"])
              (joinedCall (sessionOf "s" None) None)
              (sessionOf "s" None) "503" []
              eq_refl eq_refl eq_refl eq_refl) as (Hf & _).
  exact Hf.
Defined.

Lemma hangup_waits_for_join_witness :
  outcome (hangup outbound joinedHere alwaysIncoming "device:1" silentWorld
             (with_locusJoinInFlight true freshCall)) = Pending.
Proof.
  destruct (hangup_waits_for_join outbound joinedHere alwaysIncoming
              "device:1" silentWorld (with_locusJoinInFlight true freshCall)
              eq_refl eq_refl) as [H _].
  exact (proj1 (H eq_refl)).
Defined.

Lemma join_offer_rejected_witness :
  outcome (_join alwaysIncoming "device:1" "user" noSdp "create"
             (Invitee "bob@example.com") noOptions
             (with_offers [Rejects "NotAllowedError"] silentWorld)
             freshCall) = Rejected "NotAllowedError".
Proof.
  destruct (join_offer_rejected alwaysIncoming "device:1" "user" noSdp
              "create" (Invitee "bob@example.com") noOptions
              (with_offers [Rejects "NotAllowedError"] silentWorld)
              freshCall "NotAllowedError" [] eq_refl) as (Ho & _).
  exact Ho.
Defined.

Lemma join_sends_one_request_witness :
  filter isJoinSent
    (trace (_join alwaysIncoming "device:1" "user" noSdp "create"
              (Invitee "bob@example.com") noOptions
              (with_offers [Resolves "offer-sdp"] silentWorld) freshCall)) =
    [Sent (ReqJoin "create" (Invitee "bob@example.com") "offer-sdp"
             (Some "uuid-1"))].
Proof.
  destruct (join_sends_one_request alwaysIncoming "device:1" "user" noSdp
              "create" (Invitee "bob@example.com") noOptions
              (with_offers [Resolves "offer-sdp"] silentWorld) freshCall
              "offer-sdp" [] eq_refl) as [H _].
  apply H; [reflexivity | discriminate].
Defined.

Lemma join_without_remote_description_witness :
  locus (call (_join alwaysIncoming "device:1" "user" noSdp "create"
                 (Invitee "bob@example.com") noOptions
                 (with_session [Resolves (sessionOf "s" None)]
                    (with_offers [Resolves "offer-sdp"] silentWorld))
                 freshCall)) = Some (sessionOf "s" None) /\
  existsb isAcceptAnswer
    (trace (_join alwaysIncoming "device:1" "user" noSdp "create"
              (Invitee "bob@example.com") noOptions
              (with_session [Resolves (sessionOf "s" None)]
                 (with_offers [Resolves "offer-sdp"] silentWorld))
              freshCall)) = false.
Proof.
  destruct (join_without_remote_description alwaysIncoming "device:1" "user"
              noSdp "create" (Invitee "bob@example.com") noOptions
              (with_session [Resolves (sessionOf "s" None)]
                 (with_offers [Resolves "offer-sdp"] silentWorld))
              freshCall "offer-sdp" [] (sessionOf "s" None) []
              eq_refl eq_refl eq_refl (or_introl eq_refl))
    as (_ & Hl & _ & Ha).
  exact (conj Hl Ha).
Defined.

Lemma join_lands_witness :
  locusJoinInFlight
    (call (_join alwaysIncoming "device:1" "user" sdpOf "create"
             (Invitee "bob@example.com") noOptions
             (with_session
                [Resolves (sessionOf "s" (Some (participant "me" "JOINED"
                                                  [connectedDevice])))]
                (with_offers [Resolves "offer-sdp"] silentWorld))
             freshCall)) = false /\
  exists pre,
    trace (_join alwaysIncoming "device:1" "user" sdpOf "create"
             (Invitee "bob@example.com") noOptions
             (with_session
                [Resolves (sessionOf "s" (Some (participant "me" "JOINED"
                                                  [connectedDevice])))]
                (with_offers [Resolves "offer-sdp"] silentWorld))
             freshCall) = pre ++ [AcceptAnswer "v=0"] /\
    existsb isAcceptAnswer pre = false.
Proof.
  destruct (join_lands alwaysIncoming "device:1" "user" sdpOf "create"
              (Invitee "bob@example.com") noOptions
              (with_session
                 [Resolves (sessionOf "s" (Some (participant "me" "JOINED"
                                                   [connectedDevice])))]
                 (with_offers [Resolves "offer-sdp"] silentWorld))
              freshCall "offer-sdp" []
              (sessionOf "s" (Some (participant "me" "JOINED"
                                      [connectedDevice]))) []
              {| mediaId := Some "media-1"; remoteSdp := "v=0" |} "v=0"
              eq_refl eq_refl eq_refl eq_refl eq_refl)
    as (_ & _ & Hf & _ & Ht).
  exact (conj Hf Ht).
Defined.

Lemma join_media_receive_defaults_witness :
  offerToReceiveAudio
    (media (call (_join_media "user" receiveOnly silentWorld freshCall))) = true /\
  offerToReceiveVideo
    (media (call (_join_media "user" receiveOnly silentWorld freshCall))) = true.
Proof.
  destruct (join_media_receive_defaults "user" receiveOnly silentWorld
              freshCall) as (_ & H & _).
  destruct (H CFalsy CFalsy eq_refl eq_refl eq_refl eq_refl) as [Hr _].
  exact (Hr eq_refl eq_refl).
Defined.

Lemma answer_exempt_witness :
  existsb isSent
    (trace (answer outbound joinedHere alwaysIncoming "device:1" "user" noSdp
              noOptions silentWorld (joinedCall (sessionOf "s" None) None)))
    = false.
Proof.
  destruct (answer_exempt outbound joinedHere alwaysIncoming "device:1"
              "user" noSdp noOptions silentWorld
              (joinedCall (sessionOf "s" None) None) (sessionOf "s" None)
              eq_refl (or_introl eq_refl)) as (_ & _ & _ & Hs & _).
  exact Hs.
Defined.

Lemma answer_joins_witness :
  filter isJoinSent
    (trace (answer inbound notJoinedHere alwaysIncoming "device:1" "user"
              noSdp noOptions
              (with_offers [Resolves "offer-sdp"] silentWorld)
              (joinedCall (sessionOf "s" None) None))) =
    [Sent (ReqJoin "join" (Session (sessionOf "s" None)) "offer-sdp"
             (Some "uuid-1"))].
Proof.
  apply (answer_joins inbound notJoinedHere alwaysIncoming "device:1" "user"
           noSdp noOptions (with_offers [Resolves "offer-sdp"] silentWorld)
           (joinedCall (sessionOf "s" None) None) (sessionOf "s" None)
           "offer-sdp" []);
    try reflexivity. discriminate.
Defined.

Lemma hangup_never_created_witness :
  existsb isSent
    (trace (hangup outbound joinedHere alwaysIncoming "device:1" silentWorld
              freshCall)) = false.
Proof.
  destruct (hangup_never_created outbound joinedHere alwaysIncoming
              "device:1" silentWorld freshCall eq_refl eq_refl)
    as (_ & _ & _ & Hs & _).
  exact Hs.
Defined.

Lemma join_only_clears_flag_witness :
  locusJoinInFlight
    (call (_join alwaysIncoming "device:1" "user" noSdp "create"
             (Invitee "bob@example.com") noOptions
             (with_session [Resolves (sessionOf "s" None)]
                (with_offers [Resolves "offer-sdp"] silentWorld))
             (with_locusJoinInFlight true freshCall))) = false.
Proof.
  destruct (join_only_clears_flag alwaysIncoming "device:1" "user" noSdp
              "create" (Invitee "bob@example.com") noOptions
              (with_session [Resolves (sessionOf "s" None)]
                 (with_offers [Resolves "offer-sdp"] silentWorld))
              (with_locusJoinInFlight true freshCall)) as [_ H].
  exact (H "offer-sdp" [] (sessionOf "s" None) [] eq_refl eq_refl).
Defined.


Lemma toggleFacingMode_stream_rejected_witness :
  facingMode (call (toggleFacingMode
                      (acceptingWorld [Rejects "NotFoundError"]) videoCall)) =
    Some "user".
Proof.
  destruct (toggleFacingMode_stream_rejected
              (acceptingWorld [Rejects "NotFoundError"]) videoCall "user"
              "NotFoundError" [] eq_refl eq_refl (or_introl eq_refl) eq_refl)
    as (_ & _ & H).
  exact H.
Defined.

Lemma toggleFacingMode_twice_witness :
  facingMode
    (call (toggleFacingMode (acceptingWorld [Resolves "stream-3"])
             (call (toggleFacingMode (acceptingWorld [Resolves "stream-2"])
                      videoCall)))) = Some "user".
Proof.
  destruct (toggleFacingMode_twice (acceptingWorld [Resolves "stream-2"])
              (acceptingWorld [Resolves "stream-3"]) videoCall "user"
              "stream-2" "stream-3" [] []
              eq_refl eq_refl (or_introl eq_refl) eq_refl eq_refl eq_refl
              eq_refl) as (_ & H & _).
  exact H.
Defined.

Lemma onLocusEvent_ignores_other_calls_witness :
  _onLocusEvent alwaysIncoming "device:1"
    (eventFor (sessionOf "other" (Some (participant "me" "JOINED"
                                          [thisDevice (Some "corr-B")]))))
    silentWorld (joinedCall (sessionOf "s" None) (Some "corr-A")) =
  {| outcome := Resolved tt;
     call := joinedCall (sessionOf "s" None) (Some "corr-A");
     world := silentWorld; trace := [] |}.
Proof.
  apply (onLocusEvent_ignores_other_calls alwaysIncoming "device:1"
           (eventFor (sessionOf "other" (Some (participant "me" "JOINED"
                                                 [thisDevice (Some "corr-B")]))))
           silentWorld (joinedCall (sessionOf "s" None) (Some "corr-A"))
           (participant "me" "JOINED" [thisDevice (Some "corr-B")]));
    [reflexivity | reflexivity | right].
  exists (thisDevice (Some "corr-B")). split; reflexivity.
Defined.

Lemma onLocusEvent_reconciles_witness :
  locus (call (_onLocusEvent alwaysIncoming "device:1"
                 (eventFor (sessionOf "s" (Some (participant "me" "JOINED"
                                                   [thisDevice (Some "corr-A")]))))
                 silentWorld (with_correlationId (Some "corr-A") freshCall))) =
  Some (sessionOf "s" (Some (participant "me" "JOINED"
                               [thisDevice (Some "corr-A")]))).
Proof.
  destruct (onLocusEvent_reconciles alwaysIncoming "device:1"
              (eventFor (sessionOf "s" (Some (participant "me" "JOINED"
                                                [thisDevice (Some "corr-A")]))))
              silentWorld (with_correlationId (Some "corr-A") freshCall)
              (participant "me" "JOINED" [thisDevice (Some "corr-A")])
              eq_refl)
    as (_ & _ & _ & _ & H).
  - right. split; [reflexivity|].
    exists (thisDevice (Some "corr-A")). split; reflexivity.
  - exact (H eq_refl).
Defined.

Lemma onLocusEvent_throws_witness :
  trace (_onLocusEvent alwaysIncoming "device:1"
           (eventFor (sessionOf "other" None)) silentWorld freshCall) = [].
Proof.
  destruct (onLocusEvent_throws alwaysIncoming "device:1"
              (eventFor (sessionOf "other" None)) silentWorld freshCall
              (or_introl eq_refl)) as (_ & _ & H).
  exact H.
Defined.
